(** * Smart theming engine: image features, palette, fonts, brand guidelines

    A shallow embedding of the core of the theming engine
    ([core/palette_extractor.py], [core/image_analyzer.py],
    [core/font_suggester.py], [core/brand_guideline_parser.py] and, of
    [core/layout_generator.py], the aggregation it shares with the
    suggesters, its layout style and its spacing scale) together with the
    properties its specification states about it and further properties
    read off the code.

    Numbers.  Python [int] is [Z].  Python [float] is modelled by the exact
    rationals [Q] wherever the source only adds, multiplies, divides and
    compares; the three metrics that need a logarithm or a square root
    (fractal dimension, entropy, visual balance) are real-valued ([R]).
    Rounding error of binary64 is therefore outside the model.  The one
    float operation that is neither rational nor used at a fixed point,
    [x ** y] with a fractional exponent, is a parameter ([fpow]) of the
    sections that need it.  NumPy [uint8] arithmetic is [Z] with the
    wrap-around modulo 256 written out. *)

From Stdlib Require Import ZArith QArith Qround Qabs Qminmax Qpower Lqa Lia List Bool.
From Stdlib Require Import String Ascii HexadecimalString DecimalString.
From stdpp Require Import gmap strings.
From Stdlib Require Import Reals Lra.
Import ListNotations.

Local Open Scope Z_scope.
Local Open Scope string_scope.

(** ** The part of the Python runtime the engine relies on *)
Module Py.

(** Exceptions the modelled code can raise. *)
Inductive exn : Type :=
| TypeError
| AttributeError.

(** A computation either returns or raises. *)
Inductive result (A : Type) : Type :=
| Ok (a : A)
| Raise (e : exn).
Arguments Ok {A} a.
Arguments Raise {A} e.

Definition bind {A B : Type} (m : result A) (k : A -> result B) : result B :=
  match m with
  | Ok a => k a
  | Raise e => Raise e
  end.

Definition returns {A : Type} (m : result A) : bool :=
  match m with Ok _ => true | Raise _ => false end.

(** Comparisons on floats. *)
Definition Qlt_bool (x y : Q) : bool := negb (Qle_bool y x).
Definition Qgt_bool (x y : Q) : bool := Qlt_bool y x.
Definition Qge_bool (x y : Q) : bool := Qle_bool y x.

(** [int(x)] on a float truncates toward zero. *)
Definition int_of_float (x : Q) : Z :=
  if Qle_bool 0 x then Qfloor x else Qceiling x.

(** [round(x)]: nearest integer, ties to the even neighbour. *)
Definition round (x : Q) : Z :=
  let f := Qfloor x in
  let d := (x - inject_Z f)%Q in
  if Qlt_bool d (1 # 2) then f
  else if Qlt_bool (1 # 2) d then f + 1
  else if Z.even f then f else f + 1.

(** [round(x, n)]: [x] rounded to [n] decimals. *)
Definition round_to (x : Q) (n : nat) : Q :=
  let scale := inject_Z (10 ^ Z.of_nat n) in
  Qred (inject_Z (round (x * scale)) / scale).

(** [x % 1.0] on floats: the fractional part, in [0, 1). *)
Definition fmod1 (x : Q) : Q := (x - inject_Z (Qfloor x))%Q.

Definition sum (l : list Q) : Q := fold_left Qplus l 0%Q.

Definition mean (l : list Q) : Q :=
  Qred (sum l / inject_Z (Z.of_nat (length l))).

(** *** Strings *)

Definition is_space (c : ascii) : bool :=
  let n := nat_of_ascii c in
  ((9 <=? n) && (n <=? 13) || (n =? 32))%nat.

Fixpoint lstrip (s : string) : string :=
  match s with
  | String c s' => if is_space c then lstrip s' else s
  | EmptyString => EmptyString
  end.

Fixpoint rstrip (s : string) : string :=
  match s with
  | EmptyString => EmptyString
  | String c s' =>
      match rstrip s' with
      | EmptyString => if is_space c then EmptyString else String c EmptyString
      | r => String c r
      end
  end.

(** [s.strip()] *)
Definition strip (s : string) : string := rstrip (lstrip s).

Definition lower_char (c : ascii) : ascii :=
  let n := nat_of_ascii c in
  if ((65 <=? n) && (n <=? 90))%nat then ascii_of_nat (n + 32) else c.

(** [s.lower()] *)
Fixpoint lower (s : string) : string :=
  match s with
  | EmptyString => EmptyString
  | String c s' => String (lower_char c) (lower s')
  end.

(** [s.split(sep)] for a one-character separator: never empty, keeps
    empty fields. *)
Fixpoint split (sep : ascii) (s : string) : list string :=
  match s with
  | EmptyString => [EmptyString]
  | String c s' =>
      if Ascii.eqb c sep then EmptyString :: split sep s'
      else match split sep s' with
           | hd :: tl => String c hd :: tl
           | [] => [String c EmptyString]
           end
  end.

(** [sep.join(l)] *)
Fixpoint join (sep : string) (l : list string) : string :=
  match l with
  | [] => EmptyString
  | [x] => x
  | x :: tl => x ++ sep ++ join sep tl
  end.

(** [s.startswith(p)] *)
Definition startswith (p s : string) : bool := String.prefix p s.

(** [p in s] for strings. *)
Fixpoint contains (p s : string) : bool :=
  String.prefix p s ||
  match s with
  | EmptyString => false
  | String _ s' => contains p s'
  end.

(** Truth value of a string: non-empty. *)
Definition truthy (s : string) : bool :=
  match s with EmptyString => false | _ => true end.

End Py.

Notation "'let!' x ':=' m 'in' k" := (Py.bind m (fun x => k))
  (at level 10, x name, m at level 100, k at level 200).

(** ** [colorsys] (Python standard library), as imported by the engine *)
Module Colorsys.
Import Py.
Local Open Scope Q_scope.

Definition ONE_THIRD : Q := 1 # 3.
Definition ONE_SIXTH : Q := 1 # 6.
Definition TWO_THIRD : Q := 2 # 3.

Definition rgb_to_hls (r g b : Q) : Q * Q * Q :=
  let maxc := Qmax r (Qmax g b) in
  let minc := Qmin r (Qmin g b) in
  let sumc := maxc + minc in
  let rangec := maxc - minc in
  let l := sumc / 2 in
  if Qeq_bool minc maxc then (0, l, 0)
  else
    let s := if Qle_bool l (1 # 2) then rangec / sumc
             else rangec / (2 - maxc - minc) in
    let rc := (maxc - r) / rangec in
    let gc := (maxc - g) / rangec in
    let bc := (maxc - b) / rangec in
    let h := if Qeq_bool r maxc then bc - gc
             else if Qeq_bool g maxc then 2 + rc - bc
             else 4 + gc - rc in
    (Qred (fmod1 (h / 6)), Qred l, Qred s).

Definition _v (m1 m2 hue : Q) : Q :=
  let hue := fmod1 hue in
  if Qlt_bool hue ONE_SIXTH then m1 + (m2 - m1) * hue * 6
  else if Qlt_bool hue (1 # 2) then m2
  else if Qlt_bool hue TWO_THIRD then m1 + (m2 - m1) * (TWO_THIRD - hue) * 6
  else m1.

Definition hls_to_rgb (h l s : Q) : Q * Q * Q :=
  if Qeq_bool s 0 then (l, l, l)
  else
    let m2 := if Qle_bool l (1 # 2) then l * (1 + s) else l + s - l * s in
    let m1 := 2 * l - m2 in
    (Qred (_v m1 m2 (h + ONE_THIRD)), Qred (_v m1 m2 h),
     Qred (_v m1 m2 (h - ONE_THIRD))).

End Colorsys.

(** ** [core/palette_extractor.py] *)
Module PaletteExtractor.
Import Py Colorsys.
Local Open Scope Q_scope.

(** An RGB colour as the engine passes it around: a triple of ints. *)
Definition rgb : Type := (Z * Z * Z)%type.

Definition channel_ok (c : Z) : Prop := (0 <= c <= 255)%Z.

Definition valid_rgb (c : rgb) : Prop :=
  let '(r, g, b) := c in channel_ok r /\ channel_ok g /\ channel_ok b.

(** The format [{n:02x}]. *)
Definition format_02x (n : Z) : string :=
  let digits := HexadecimalString.NilZero.string_of_uint
                  (N.to_hex_uint (Z.to_N (Z.abs n))) in
  let body := if (n <? 0)%Z then "-" ++ digits else digits in
  if (String.length body <? 2)%nat then "0" ++ body else body.

Definition rgb_to_hex (rgb_color : rgb) : string :=
  let '(r, g, b) := rgb_color in
  "#" ++ format_02x r ++ format_02x g ++ format_02x b.

(** [tuple(int(x * 255) for x in ...)] *)
Definition to_rgb255 (c : Q * Q * Q) : rgb :=
  let '(r, g, b) := c in
  (int_of_float (r * 255), int_of_float (g * 255), int_of_float (b * 255)).

(** [colorsys.rgb_to_hls(c[0]/255, c[1]/255, c[2]/255)] *)
Definition hls_of_rgb (c : rgb) : Q * Q * Q :=
  let '(r, g, b) := c in
  rgb_to_hls (inject_Z r / 255) (inject_Z g / 255) (inject_Z b / 255).

Record wcag := {
  AA_normal_text : bool;
  AA_large_text : bool;
  AAA_normal_text : bool;
  AAA_large_text : bool
}.

Definition check_wcag_compliance (contrast_ratio : Q) : wcag :=
  {| AA_normal_text := Qge_bool contrast_ratio 4.5;
     AA_large_text := Qge_bool contrast_ratio 3.0;
     AAA_normal_text := Qge_bool contrast_ratio 7.0;
     AAA_large_text := Qge_bool contrast_ratio 4.5 |}.

Record harmony := {
  score : Q;
  explanation : string
}.

Record suggestion := {
  issue : string;
  context : string;
  current_ratio : Q;
  required_AA : Q;
  suggestion_text : string;
  compliant_AA_normal : bool
}.

Record palette := {
  primary : string;
  secondary : string;
  accent : string
}.

Record palette_result := {
  result_palette : palette;
  accessibility_suggestions : list suggestion;
  color_harmony_score : harmony
}.

(** [sorted] on floats. *)
Fixpoint insert_sorted (x : Q) (l : list Q) : list Q :=
  match l with
  | [] => [x]
  | y :: tl => if Qle_bool x y then x :: l else y :: insert_sorted x tl
  end.

Definition sorted (l : list Q) : list Q := fold_right insert_sorted [] l.

Definition list_max (l : list Q) : Q := fold_right Qmax (hd 0 l) l.
Definition list_min (l : list Q) : Q := fold_right Qmin (hd 0 l) l.

(** [min(abs(a - b), 360 - abs(a - b))] *)
Definition angular_diff (a b : Q) : Q :=
  Qmin (Qabs (a - b)) (360 - Qabs (a - b)).

Definition opposite (a b : Q) : bool :=
  Qlt_bool (Qabs (angular_diff a b - 180)) 15.

Definition show_int (n : Z) : string :=
  DecimalString.NilZero.string_of_int (Z.to_int n).

(** Rule 2: every hue and its cyclic successor are at most 60 degrees
    apart. *)
Definition is_analogous (hues : list Q) : bool :=
  forallb (fun i => negb (Qgt_bool
              (angular_diff (nth i hues 0)
                            (nth ((i + 1) mod List.length hues)%nat hues 0)) 60))
          (seq 0 (List.length hues)).

(** Rule 3 for more than two hues: for each hue, the first later hue that
    is opposite to it (the inner loop stops at the first hit). *)
Fixpoint complementary_pairs (hues : list Q) : list (Q * Q) :=
  match hues with
  | [] => []
  | h :: tl =>
      match find (opposite h) tl with
      | Some h' => (h, h') :: complementary_pairs tl
      | None => complementary_pairs tl
      end
  end.

Definition pair_message (p : Q * Q) : string :=
  "Contains a complementary pair (hues " ++ show_int (round (fst p))
    ++ "° and " ++ show_int (round (snd p)) ++ "°).".

Definition calculate_color_harmony_score (colors_rgb : list rgb) : harmony :=
  match colors_rgb with
  | [] => {| score := 0.0;
             explanation := "No colors provided for harmony analysis." |}
  | [_] => {| score := 7.0;
              explanation :=
                "Single color palette is inherently harmonious (monochromatic)." |}
  | _ =>
      let hues := sorted (map (fun c => fst (fst (hls_of_rgb c)) * 360) colors_rgb) in
      let n := List.length hues in
      let spread := list_max hues - list_min hues in
      let r1 := Qlt_bool spread 15 || Qlt_bool (360 - spread) 15 in
      let r2 := is_analogous hues in
      let r3two :=
        (n =? 2)%nat && opposite (nth 0 hues 0) (nth 1 hues 0) in
      let pairs := if (2 <? n)%nat then complementary_pairs hues else [] in
      let r4 :=
        (n =? 3)%nat &&
        Qlt_bool (Qabs (angular_diff (nth 1 hues 0) (nth 0 hues 0) - 120)) 15 &&
        Qlt_bool (Qabs (angular_diff (nth 2 hues 0) (nth 1 hues 0) - 120)) 15 &&
        Qlt_bool (Qabs (angular_diff (nth 0 hues 0) (nth 2 hues 0) - 120)) 15 in
      let harmony_score :=
        (if r1 then 2.0 else 0) + (if r2 then 3.0 else 0)
        + (if r3two then 4.0 else 0)
        + 1.5 * inject_Z (Z.of_nat (List.length pairs))
        + (if r4 then 5.0 else 0) in
      let messages :=
        ((if r1 then ["Monochromatic (hues are very close)."] else [])
         ++ (if r2 then ["Analogous (hues are close on the color wheel)."] else [])
         ++ (if r3two then ["Complementary (two main hues are opposite)."] else [])
         ++ map pair_message pairs
         ++ (if r4 then ["Triadic (three main hues are equally spaced)."] else []))%list in
      let final_score := Qmax 0.0 (Qmin 10.0 harmony_score) in
      match messages with
      | [] =>
          {| score := round_to (Qmax final_score 3.0) 2;
             explanation :=
               "No specific harmony pattern detected, but colors are present." |}
      | _ =>
          {| score := round_to final_score 2;
             explanation := join ". " messages |}
      end
  end.

Section WithPower.

(** [x ** y] on floats, used at the exponent 2.4. *)
Variable fpow : Q -> Q -> Q.

Definition gamma_correct (c : Q) : Q :=
  if Qle_bool c 0.03928 then c / 12.92
  else fpow ((c + 0.055) / 1.055) 2.4.

Definition get_luminance (c : rgb) : Q :=
  let '(r, g, b) := c in
  0.2126 * gamma_correct (inject_Z r / 255.0)
  + 0.7152 * gamma_correct (inject_Z g / 255.0)
  + 0.0722 * gamma_correct (inject_Z b / 255.0).

Definition get_contrast_ratio (rgb1 rgb2 : rgb) : Q :=
  let L1 := get_luminance rgb1 in
  let L2 := get_luminance rgb2 in
  if Qgt_bool L2 L1 then (L2 + 0.05) / (L1 + 0.05)
  else (L1 + 0.05) / (L2 + 0.05).

Definition step : Q := 0.05.
Definition max_attempts : nat := 20.

(** The [for _ in range(max_attempts)] loop of
    [suggest_accessible_color]; [attempts] iterations are left.  The
    second component counts the lightness adjustments made. *)
Fixpoint adjust_lightness (attempts : nat) (background_rgb : rgb)
    (target_contrast hue saturation lightness : Q) (current_rgb : rgb)
    (current_contrast : Q) (adjustments : nat) : rgb * nat :=
  match attempts with
  | O => (current_rgb, adjustments)
  | S attempts' =>
      if Qge_bool current_contrast target_contrast
      then (current_rgb, adjustments)
      else
        let new_lightness :=
          if Qlt_bool (get_luminance current_rgb) (get_luminance background_rgb)
          then lightness + step else lightness - step in
        let new_lightness := Qred (Qmax 0.0 (Qmin 1.0 new_lightness)) in
        let adjusted_rgb_norm := hls_to_rgb hue new_lightness saturation in
        let current_rgb := to_rgb255 adjusted_rgb_norm in
        adjust_lightness attempts' background_rgb target_contrast hue
          saturation new_lightness current_rgb
          (get_contrast_ratio current_rgb background_rgb) (S adjustments)
  end.

Definition suggest_accessible_color_counted (original_rgb background_rgb : rgb)
    (target_contrast : Q) : rgb * nat :=
  let '(hue, lightness, saturation) := hls_of_rgb original_rgb in
  adjust_lightness max_attempts background_rgb target_contrast hue
    saturation lightness original_rgb
    (get_contrast_ratio original_rgb background_rgb) 0.

Definition suggest_accessible_color (original_rgb background_rgb : rgb)
    (target_contrast : Q) : rgb :=
  fst (suggest_accessible_color_counted original_rgb background_rgb
         target_contrast).

(** What the engine takes from outside: decoding and down-scaling an
    image file to its pixels ([PIL]; [None] when that raises, which the
    source catches and skips), and clustering the pixel pool
    ([sklearn.cluster.MiniBatchKMeans]), given here as the cluster
    centres already converted to 0-255 ints, most populous first. *)
Variable load_pixels : string -> option (list rgb).
Variable dominant_colors : list rgb -> list rgb.

Definition map_rgb (f : Z -> Z) (c : rgb) : rgb :=
  let '(r, g, b) := c in (f r, f g, f b).

Definition muted (c : rgb) : rgb :=
  let '(h, l, s) := hls_of_rgb c in
  to_rgb255 (hls_to_rgb h l (Qmax 0 (s * 0.7))).

Definition pastel (c : rgb) : rgb :=
  let '(h, l, s) := hls_of_rgb c in
  to_rgb255 (hls_to_rgb h (Qmin 1 (l * 1.2)) (s * 0.8)).

Definition default_palette : palette :=
  {| primary := "#FFFFFF"; secondary := "#CCCCCC"; accent := "#000000" |}.

Definition contrast_suggestion (issue_text context_text advice_pre advice_post : string)
    (color background : rgb) : list suggestion :=
  let ratio := get_contrast_ratio color background in
  let compliance := check_wcag_compliance ratio in
  if AA_normal_text compliance then []
  else
    let suggested := suggest_accessible_color color background 4.5 in
    [ {| issue := issue_text;
         context := context_text;
         current_ratio := round_to ratio 2;
         required_AA := 4.5;
         suggestion_text := advice_pre ++ rgb_to_hex suggested ++ advice_post;
         compliant_AA_normal := AA_normal_text compliance |} ].

Definition extract_palette (image_paths : list string)
    (color_palette_style mode : string) : palette_result :=
  match image_paths with
  | [] =>
      {| result_palette := default_palette;
         accessibility_suggestions := [];
         color_harmony_score :=
           {| score := 0.0;
              explanation := "No images provided for color analysis." |} |}
  | _ =>
      let all_pixels :=
        flat_map (fun img_path =>
                    match load_pixels img_path with
                    | Some pixels => pixels
                    | None => []
                    end) image_paths in
      match all_pixels with
      | [] =>
          {| result_palette := default_palette;
             accessibility_suggestions := [];
             color_harmony_score :=
               {| score := 0.0;
                  explanation :=
                    "No valid pixels extracted for color analysis." |} |}
      | _ =>
          let ranked := dominant_colors all_pixels in
          let primary_rgb := nth 0 ranked (255, 255, 255)%Z in
          let secondary_rgb := nth 1 ranked (204, 204, 204)%Z in
          let accent_rgb := nth 2 ranked (0, 0, 0)%Z in
          let '(primary_rgb, secondary_rgb, accent_rgb) :=
            if String.eqb mode "dark" then
              (map_rgb (fun x => Z.max 0 (x - 50)) primary_rgb,
               map_rgb (fun x => Z.max 0 (x - 30)) secondary_rgb,
               map_rgb (fun x => Z.min 255 (x + 50)) accent_rgb)
            else
              (map_rgb (fun x => Z.min 255 (x + 20)) primary_rgb,
               map_rgb (fun x => Z.min 255 (x + 10)) secondary_rgb,
               map_rgb (fun x => Z.max 0 (x - 20)) accent_rgb) in
          let '(primary_rgb, secondary_rgb, accent_rgb) :=
            if String.eqb color_palette_style "muted" then
              (muted primary_rgb, muted secondary_rgb, muted accent_rgb)
            else if String.eqb color_palette_style "pastel" then
              (pastel primary_rgb, pastel secondary_rgb, pastel accent_rgb)
            else (primary_rgb, secondary_rgb, accent_rgb) in
          let extracted_palette :=
            {| primary := rgb_to_hex primary_rgb;
               secondary := rgb_to_hex secondary_rgb;
               accent := rgb_to_hex accent_rgb |} in
          let text_color_for_contrast :=
            if Qgt_bool (get_luminance primary_rgb) 0.5
            then (0, 0, 0)%Z else (255, 255, 255)%Z in
          let primary_vs_text :=
            let ratio := get_contrast_ratio primary_rgb text_color_for_contrast in
            let compliance := check_wcag_compliance ratio in
            if AA_normal_text compliance then []
            else
              let suggested :=
                suggest_accessible_color text_color_for_contrast primary_rgb 4.5 in
              [ {| issue := "Primary color contrast with text";
                   context :=
                     "Primary background (" ++ primary extracted_palette
                       ++ ") vs. text (" ++ rgb_to_hex text_color_for_contrast ++ ")";
                   current_ratio := round_to ratio 2;
                   required_AA := 4.5;
                   suggestion_text :=
                     "Consider adjusting text color to " ++ rgb_to_hex suggested
                       ++ " or primary background for better contrast.";
                   compliant_AA_normal := AA_normal_text compliance |} ] in
          let secondary_on_primary :=
            contrast_suggestion
              "Secondary color contrast with Primary background"
              ("Secondary element (" ++ secondary extracted_palette
                 ++ ") on Primary background (" ++ primary extracted_palette ++ ")")
              "Consider adjusting secondary color to " " for better contrast."
              secondary_rgb primary_rgb in
          let accent_on_primary :=
            contrast_suggestion
              "Accent color contrast with Primary background"
              ("Accent element (" ++ accent extracted_palette
                 ++ ") on Primary background (" ++ primary extracted_palette ++ ")")
              "Consider adjusting accent color to " " for better contrast."
              accent_rgb primary_rgb in
          {| result_palette := extracted_palette;
             accessibility_suggestions :=
               (primary_vs_text ++ secondary_on_primary ++ accent_on_primary)%list;
             color_harmony_score :=
               calculate_color_harmony_score
                 [primary_rgb; secondary_rgb; accent_rgb] |}
      end
  end.

End WithPower.

End PaletteExtractor.

(** ** The analysis record

    The dictionary [analyze_image] returns and the suggesters read.  Every
    reader goes through [a.get(key)] and treats a missing key like [None],
    so an entry is an [option]. *)
Module Analysis.

Record symmetry_scores := {
  horizontal : option Q;
  vertical : option Q
}.

Record aesthetic := {
  aesthetic_score : option Q;
  aesthetic_explanation : string
}.

Record t := {
  symmetry : option symmetry_scores;
  whitespace_percentage : option Q;
  aspect_ratio : option Q;
  golden_ratio_aspect_match : bool;
  fractal_dimension : option Q;
  entropy : option Q;
  visual_balance_score : option Q;
  typography_inference : option string;
  mood_emotion : option string;
  aesthetic_neural_score : option aesthetic
}.

(** The [results] dictionary [analyze_image] starts from, returned as it
    is when the image cannot be opened. *)
Definition initial : t :=
  {| symmetry := Some {| horizontal := None; vertical := None |};
     whitespace_percentage := None;
     aspect_ratio := None;
     golden_ratio_aspect_match := false;
     fractal_dimension := None;
     entropy := None;
     visual_balance_score := None;
     typography_inference := Some "unknown";
     mood_emotion := Some "neutral";
     aesthetic_neural_score :=
       Some {| aesthetic_score := None;
               aesthetic_explanation :=
                 "Not yet calculated (simulated in this module)" |} |}.

(** A dictionary with no key at all. *)
Definition empty : t :=
  {| symmetry := None;
     whitespace_percentage := None;
     aspect_ratio := None;
     golden_ratio_aspect_match := false;
     fractal_dimension := None;
     entropy := None;
     visual_balance_score := None;
     typography_inference := None;
     mood_emotion := None;
     aesthetic_neural_score := None |}.

End Analysis.

(** ** [core/image_analyzer.py] *)
Module ImageAnalyzer.
Import Py Colorsys.
Local Open Scope Q_scope.

Definition rgb : Type := PaletteExtractor.rgb.

(** [np.array(img_gray)]: rows of [uint8] intensities;
    [np.array(img_rgb)]: rows of pixels. *)
Definition gray_image : Type := list (list Z).
Definition rgb_image : Type := list (list rgb).

Definition height {A : Type} (img : list (list A)) : nat := List.length img.
Definition width {A : Type} (img : list (list A)) : nat := List.length (hd [] img).

Definition sumZ (l : list Z) : Z := fold_right Z.add 0%Z l.

(** The image every pixel of which has intensity [g]. *)
Definition uniform (h w : nat) (g : Z) : gray_image := replicate h (replicate w g).

(** *** Symmetry (step 2 of [analyze_image]) *)

(** [a - b] on [uint8] operands wraps around modulo 256; [np.abs] is the
    identity on the unsigned result. *)
Definition uint8_sub (a b : Z) : Z := ((a - b) mod 256)%Z.
Definition uint8_abs (a : Z) : Z := a.

(** [np.sum(np.abs(a - b))] for two [uint8] arrays of one shape; the sum
    is accumulated in a 64-bit integer. *)
Definition sum_abs_diff (a b : gray_image) : Z :=
  sumZ (concat (zip_with (zip_with (fun x y => uint8_abs (uint8_sub x y))) a b)).

(** Shape and size of a slice that has [rows] rows of [cols] columns. *)
Definition shape_eqb (s1 s2 : nat * nat) : bool :=
  (fst s1 =? fst s2)%nat && (snd s1 =? snd s2)%nat.

Definition symmetry_horizontal (img_array_gray : gray_image) : Q :=
  let h := height img_array_gray in
  let w := width img_array_gray in
  let top_half := firstn (h / 2) img_array_gray in
  let bottom_half := skipn (h / 2 + h mod 2) img_array_gray in
  let bottom_half_flipped := reverse bottom_half in
  let top_shape := (List.length top_half, w) in
  let bottom_shape := (List.length bottom_half_flipped, w) in
  let top_size := (List.length top_half * w)%nat in
  if shape_eqb top_shape bottom_shape && (0 <? top_size)%nat then
    let horizontal_diff := sum_abs_diff top_half bottom_half_flipped in
    let max_diff := (255 * Z.of_nat top_size)%Z in
    1 - inject_Z horizontal_diff / inject_Z max_diff
  else 0.0.

Definition symmetry_vertical (img_array_gray : gray_image) : Q :=
  let h := height img_array_gray in
  let w := width img_array_gray in
  let left_half := map (firstn (w / 2)) img_array_gray in
  let right_half := map (skipn (w / 2 + w mod 2)) img_array_gray in
  let right_half_flipped := map reverse right_half in
  let left_shape := (h, (w / 2)%nat) in
  let right_shape := (h, (w - (w / 2 + w mod 2))%nat) in
  let left_size := (h * (w / 2))%nat in
  if shape_eqb left_shape right_shape && (0 <? left_size)%nat then
    let vertical_diff := sum_abs_diff left_half right_half_flipped in
    let max_diff := (255 * Z.of_nat left_size)%Z in
    1 - inject_Z vertical_diff / inject_Z max_diff
  else 0.0.

(** *** Whitespace (step 3) *)

Definition count_if (f : Z -> bool) (img : gray_image) : Z :=
  Z.of_nat (List.length (List.filter f (concat img))).

Definition whitespace_percentage_of (img_array_gray : gray_image) : Q :=
  let num_light_whitespace_pixels := count_if (fun v => 240 <? v)%Z img_array_gray in
  let num_dark_whitespace_pixels := count_if (fun v => v <? 15)%Z img_array_gray in
  let total_pixels := Z.of_nat (List.length (concat img_array_gray)) in
  round_to (inject_Z (num_light_whitespace_pixels + num_dark_whitespace_pixels)
            / inject_Z total_pixels * 100) 2.

(** *** Fractal dimension by box counting *)

Definition pixel (a : gray_image) (y x : nat) : Z := nth x (nth y a []) 0%Z.

(** [(image_array_gray < threshold).astype(int)] *)
Definition binarize (threshold : Z) (img : gray_image) : gray_image :=
  map (map (fun v => if (v <? threshold)%Z then 1%Z else 0%Z)) img.

(** Side of the padded square: [2 ** ceil(log2(max(Z.shape)))]. *)
Definition padded_side (img : gray_image) : nat :=
  Z.to_nat (2 ^ Z.log2_up (Z.of_nat (Nat.max (height img) (width img)))).

(** Sum of the box of side [k] whose corner is [(i * k, j * k)] in the
    zero-padded array. *)
Definition box_sum (Zb : gray_image) (k i j : nat) : Z :=
  sumZ (map (fun dy => sumZ (map (fun dx => pixel Zb (i * k + dy) (j * k + dx))
                                 (seq 0 k)))
            (seq 0 k)).

(** [boxcount]: the number of boxes of side [k] that hold a 1. *)
Definition boxcount (Zb : gray_image) (p k : nat) : Z :=
  let idx := seq 0 (p / k) in
  Z.of_nat (List.length
    (List.filter (fun ij => (0 <? box_sum Zb k (fst ij) (snd ij))%Z)
            (list_prod idx idx))).

(** [2 ** np.arange(int(log2(p)), 1, -1)]: the box sides, largest first. *)
Definition box_sizes (p : nat) : list nat :=
  map (fun e => (2 ^ e)%nat) (rev (seq 2 (Nat.log2 p - 1))).

(** The box sides with a non-zero count, and those counts. *)
Definition valid_boxes (img : gray_image) (threshold : Z) : list (nat * Z) :=
  let Zb := binarize threshold img in
  let p := padded_side img in
  List.filter (fun sc => (0 <? snd sc)%Z)
         (map (fun size => (size, boxcount Zb p size)) (box_sizes p)).

Definition sumR (l : list R) : R := fold_right Rplus 0%R l.

(** [np.polyfit(x, y, 1)[0]]: slope of the least-squares line. *)
Definition polyfit_slope (xs ys : list R) : R :=
  let n := INR (List.length xs) in
  let sx := sumR xs in
  let sy := sumR ys in
  let sxy := sumR (zip_with Rmult xs ys) in
  let sxx := sumR (zip_with Rmult xs xs) in
  ((n * sxy - sx * sy) / (n * sxx - sx * sx))%R.

Definition calculate_fractal_dimension (image_array_gray : gray_image)
    (threshold : Z) : R :=
  if (List.length (concat image_array_gray) =? 0)%nat then 0%R
  else if (sumZ (concat (binarize threshold image_array_gray)) =? 0)%Z then 0%R
  else
    let valid := valid_boxes image_array_gray threshold in
    if (List.length valid <? 2)%nat then 0%R
    else polyfit_slope
           (map (fun sc => ln (1 / INR (fst sc))) valid)
           (map (fun sc => ln (IZR (snd sc))) valid).

(** *** Entropy *)

(** [np.histogram(..., bins=256, range=[0,256])[0]] *)
Definition histogram (img : gray_image) : list Z :=
  map (fun i => count_if (Z.eqb (Z.of_nat i)) img) (seq 0 256).

Definition log2R (x : R) : R := (ln x / ln 2)%R.

Definition calculate_image_entropy (image_array_gray : gray_image) : R :=
  if (List.length (concat image_array_gray) =? 0)%nat then 0%R
  else
    let hist := histogram image_array_gray in
    let total := sumZ hist in
    let probs := map (fun c => (IZR c / IZR total)%R)
                     (List.filter (fun c => (0 <? c)%Z) hist) in
    (- sumR (map (fun p => p * log2R p) probs))%R.

(** *** Visual balance *)

(** [sum(row * arange(len(row)))] *)
Definition weighted_sum (row : list Z) : Z :=
  sumZ (imap (fun i v => (v * Z.of_nat i)%Z) row).

Definition calculate_visual_balance_score (image_array_gray : gray_image) : R :=
  if (List.length (concat image_array_gray) =? 0)%nat then 0%R
  else
    let h := height image_array_gray in
    let w := width image_array_gray in
    let total_luminance := sumZ (concat image_array_gray) in
    if (total_luminance =? 0)%Z then 0%R
    else
      let center_x :=
        (IZR (sumZ (map weighted_sum image_array_gray)) / IZR total_luminance)%R in
      let center_y :=
        (IZR (weighted_sum (map sumZ image_array_gray)) / IZR total_luminance)%R in
      let geometric_center_x := ((INR w - 1) / 2)%R in
      let geometric_center_y := ((INR h - 1) / 2)%R in
      let distance :=
        sqrt ((center_x - geometric_center_x) ^ 2
              + (center_y - geometric_center_y) ^ 2)%R in
      let max_distance :=
        sqrt (geometric_center_x ^ 2 + geometric_center_y ^ 2)%R in
      if Req_EM_T max_distance 0 then 1%R
      else (1 - Rmin 1 (distance / max_distance))%R.

(** *** Tags (steps 7 and 8) *)

Definition GOLDEN_RATIO : Q := 1.61803398875.

Definition mem (x : string) (l : list string) : bool := existsb (String.eqb x) l.

(** [l.append(x)] *)
Definition append (l : list string) (x : string) : list string := (l ++ [x])%list.

(** [l.remove(x)]: drops the first occurrence of [x]. *)
Fixpoint remove_first (x : string) (l : list string) : list string :=
  match l with
  | [] => []
  | y :: tl => if String.eqb x y then tl else y :: remove_first x tl
  end.

(** [set(l)] as it is then iterated.  Python leaves the iteration order of
    a set unspecified; the model keeps first occurrences in list order. *)
Fixpoint distinct (l : list string) : list string :=
  match l with
  | [] => []
  | x :: tl => x :: List.filter (fun y => negb (String.eqb x y)) (distinct tl)
  end.

(** [np.mean(img_array_rgb.reshape(-1, 3), axis=0)] *)
Definition mean_rgb (img : rgb_image) : Q * Q * Q :=
  let pixels := concat img in
  let n := inject_Z (Z.of_nat (List.length pixels)) in
  let total (f : rgb -> Z) := inject_Z (sumZ (map f pixels)) in
  (Qred (total (fun c => fst (fst c)) / n),
   Qred (total (fun c => snd (fst c)) / n),
   Qred (total (fun c => snd c) / n)).

(** [avg_saturation]: the HLS saturation of the mean colour. *)
Definition avg_saturation_of (img : rgb_image) : Q :=
  let '(r, g, b) := mean_rgb img in
  snd (rgb_to_hls (r / 255.0) (g / 255.0) (b / 255.0)).

Definition infer_typography_styles (whitespace_percentage horizontal vertical
    avg_saturation : Q) : list string :=
  let styles := [] in
  let styles := if Qgt_bool whitespace_percentage 70 then append styles "light" else styles in
  let styles := if Qlt_bool whitespace_percentage 30 then append styles "bold" else styles in
  let styles :=
    if Qgt_bool horizontal 0.85 && Qgt_bool vertical 0.85 then append styles "geometric"
    else if Qlt_bool horizontal 0.5 || Qlt_bool vertical 0.5 then append styles "expressive"
    else styles in
  let styles :=
    if Qgt_bool avg_saturation 0.6 then append styles "display"
    else if Qlt_bool avg_saturation 0.2 then append styles "serif"
    else styles in
  if mem "bold" styles && mem "light" styles then
    if Qlt_bool whitespace_percentage 50 then remove_first "light" styles
    else remove_first "bold" styles
  else styles.

Definition infer_moods (avg_rgb : Q * Q * Q) (avg_saturation whitespace_percentage
    horizontal vertical : Q) : list string :=
  let '(r, g, b) := avg_rgb in
  let inferred_moods := [] in
  let inferred_moods :=
    if Qgt_bool r g && Qgt_bool r b then
      if Qgt_bool avg_saturation 0.5 then append inferred_moods "energetic"
      else append inferred_moods "warm"
    else if Qgt_bool b r && Qgt_bool b g then
      if Qgt_bool avg_saturation 0.5 then append inferred_moods "vibrant"
      else append inferred_moods "calm"
    else append inferred_moods "neutral" in
  let inferred_moods :=
    if Qgt_bool avg_saturation 0.7 then append inferred_moods "vibrant"
    else if Qlt_bool avg_saturation 0.3 then append inferred_moods "muted"
    else inferred_moods in
  let inferred_moods :=
    if Qgt_bool whitespace_percentage 70 then
      let inferred_moods := append inferred_moods "minimalist" in
      if mem "vibrant" inferred_moods then remove_first "vibrant" inferred_moods
      else inferred_moods
    else if Qlt_bool whitespace_percentage 30 then append inferred_moods "dense"
    else inferred_moods in
  let avg_symmetry := (horizontal + vertical) / 2 in
  if Qgt_bool avg_symmetry 0.8 then append (append inferred_moods "balanced") "professional"
  else if Qlt_bool avg_symmetry 0.5 then append (append inferred_moods "dynamic") "creative"
  else inferred_moods.

(** [", ".join(set(tags)) if tags else fallback] *)
Definition join_tags (tags : list string) (fallback : string) : string :=
  match tags with
  | [] => fallback
  | _ => join ", " (distinct tags)
  end.

(** *** The simulated aesthetic score *)
Definition get_aesthetic_score_from_gemini (image_data_base64 : string)
    : Analysis.aesthetic :=
  let answer (s : Z) (e : string) :=
    {| Analysis.aesthetic_score := Some (inject_Z s);
       Analysis.aesthetic_explanation := e |} in
  if contains "test_calm.png" image_data_base64 then
    answer 8%Z "Simulated: Clean and balanced composition, contributing to a pleasant aesthetic."
  else if contains "test_vibrant.png" image_data_base64 then
    answer 7%Z "Simulated: Dynamic use of color, creating a vibrant and engaging aesthetic."
  else if contains "test_creative.png" image_data_base64 then
    answer 7%Z "Simulated: Interesting asymmetric composition, suggesting a creative aesthetic."
  else if contains "test_golden.png" image_data_base64 then
    answer 9%Z "Simulated: Strong adherence to classic proportional harmony, highly aesthetic."
  else answer 5%Z "Simulated: Neutral aesthetic quality.".

(** *** [analyze_image] *)

(** What [PIL] hands over once the file is open: the RGB array, its
    grayscale conversion (mode L) and the base64 text of its PNG form. *)
Record decoded := {
  img_array_rgb : rgb_image;
  img_array_gray : gray_image;
  img_base64 : string
}.

Section WithFloats.

(** The binary64 value of a real-valued result. *)
Variable to_float : R -> Q.

(** [opened] is [None] when opening or decoding the file raises; the
    source catches that and returns the initial record.  An array
    without rows makes [width / height] raise, with the same outcome.
    The arrays of an image that did open hold at least one pixel. *)
Definition analyze_image (opened : option decoded) : Analysis.t :=
  match opened with
  | None => Analysis.initial
  | Some img =>
      let gray := img_array_gray img in
      let h := height (img_array_rgb img) in
      let w := width (img_array_rgb img) in
      if (h =? 0)%nat then Analysis.initial
      else
        let aspect_ratio :=
          round_to (inject_Z (Z.of_nat w) / inject_Z (Z.of_nat h)) 2 in
        let golden :=
          Qlt_bool (Qabs (aspect_ratio - GOLDEN_RATIO)) 0.1
          || Qlt_bool (Qabs (aspect_ratio - 1 / GOLDEN_RATIO)) 0.1 in
        let horizontal := symmetry_horizontal gray in
        let vertical := symmetry_vertical gray in
        let whitespace := whitespace_percentage_of gray in
        let avg_saturation := avg_saturation_of (img_array_rgb img) in
        let styles :=
          infer_typography_styles whitespace horizontal vertical avg_saturation in
        let moods :=
          infer_moods (mean_rgb (img_array_rgb img)) avg_saturation whitespace
            horizontal vertical in
        {| Analysis.symmetry :=
             Some {| Analysis.horizontal := Some horizontal;
                     Analysis.vertical := Some vertical |};
           Analysis.whitespace_percentage := Some whitespace;
           Analysis.aspect_ratio := Some aspect_ratio;
           Analysis.golden_ratio_aspect_match := golden;
           Analysis.fractal_dimension :=
             Some (round_to (to_float (calculate_fractal_dimension gray 128)) 3);
           Analysis.entropy :=
             Some (round_to (to_float (calculate_image_entropy gray)) 3);
           Analysis.visual_balance_score :=
             Some (round_to (to_float (calculate_visual_balance_score gray)) 3);
           Analysis.typography_inference := Some (join_tags styles "sans-serif");
           Analysis.mood_emotion := Some (join_tags moods "neutral");
           Analysis.aesthetic_neural_score :=
             Some (get_aesthetic_score_from_gemini (img_base64 img)) |}
  end.

End WithFloats.

End ImageAnalyzer.

(** ** Brand guidelines as the engine consumes them

    The dictionary the parser returns and the suggesters read: the
    recognised keys, each present or not. *)
Module BrandGuidelines.

Record t := {
  primaryColor : option string;
  secondaryColor : option string;
  accentColor : option string;
  headingFont : option string;
  bodyFont : option string;
  layoutPreference : option string;
  designPrinciples : option (list string)
}.

(** [{}] *)
Definition empty : t :=
  {| primaryColor := None; secondaryColor := None; accentColor := None;
     headingFont := None; bodyFont := None; layoutPreference := None;
     designPrinciples := None |}.

(** [not guidelines]: the dictionary has no key. *)
Definition is_empty (g : t) : bool :=
  match primaryColor g, secondaryColor g, accentColor g, headingFont g,
        bodyFont g, layoutPreference g, designPrinciples g with
  | None, None, None, None, None, None, None => true
  | _, _, _, _, _, _, _ => false
  end.

End BrandGuidelines.

(** ** Aggregation of a batch of analysis records

    [generate_layout] ([core/layout_generator.py]), [suggest_fonts] and
    [suggest_js_components] open with the same block: the mean of every
    numeric field over the records that have it, and the union of the mood
    and typography tags. *)
Module Aggregation.
Import Py.
Local Open Scope Q_scope.

(** [[a.get(key) for a in results if a.get(key) is not None]] *)
Definition present {A : Type} (field : Analysis.t -> option A)
    (image_analysis_results : list Analysis.t) : list A :=
  omap field image_analysis_results.

(** [if xs: avg = sum(xs) / len(xs)], else the default. *)
Definition mean_or (default : Q) (xs : list Q) : Q :=
  match xs with
  | [] => default
  | _ => mean xs
  end.

Definition symmetry_field (side : Analysis.symmetry_scores -> option Q)
    (a : Analysis.t) : option Q :=
  match Analysis.symmetry a with
  | Some s => side s
  | None => None
  end.

Definition score_field (a : Analysis.t) : option Q :=
  match Analysis.aesthetic_neural_score a with
  | Some s => Analysis.aesthetic_score s
  | None => None
  end.

(** The body of
    [if key in analysis and analysis[key] and analysis[key] != sentinel:
       for tag in analysis[key].split(','): tags.add(tag.strip())] *)
Definition add_tags (field : option string) (sentinel : string)
    (tags : gset string) : gset string :=
  match field with
  | Some s =>
      if truthy s && negb (String.eqb s sentinel)
      then fold_left (fun acc tag => acc ∪ {[ strip tag ]}) (split "," s) tags
      else tags
  | None => tags
  end.

Definition inferred_mood_tags (image_analysis_results : list Analysis.t)
    : gset string :=
  fold_left (fun tags analysis =>
               add_tags (Analysis.mood_emotion analysis) "neutral" tags)
            image_analysis_results ∅.

Definition inferred_typography_tags (image_analysis_results : list Analysis.t)
    : gset string :=
  fold_left (fun tags analysis =>
               add_tags (Analysis.typography_inference analysis) "unknown" tags)
            image_analysis_results ∅.

Record t := {
  avg_whitespace : Q;
  avg_h_symmetry : Q;
  avg_v_symmetry : Q;
  avg_fractal_dimension : Q;
  avg_entropy : Q;
  avg_visual_balance : Q;
  avg_aesthetic_score : Q;
  mood_tags : gset string;
  typography_tags : gset string
}.

Definition aggregate (image_analysis_results : list Analysis.t) : t :=
  {| avg_whitespace :=
       match present Analysis.whitespace_percentage image_analysis_results with
       | [] => 0.5
       | whitespaces => Qred (mean whitespaces / 100)
       end;
     avg_h_symmetry :=
       mean_or 0.5 (present (symmetry_field Analysis.horizontal) image_analysis_results);
     avg_v_symmetry :=
       mean_or 0.5 (present (symmetry_field Analysis.vertical) image_analysis_results);
     avg_fractal_dimension :=
       mean_or 1.5 (present Analysis.fractal_dimension image_analysis_results);
     avg_entropy :=
       mean_or 4.0 (present Analysis.entropy image_analysis_results);
     avg_visual_balance :=
       mean_or 0.5 (present Analysis.visual_balance_score image_analysis_results);
     avg_aesthetic_score :=
       mean_or 5 (present score_field image_analysis_results);
     mood_tags := inferred_mood_tags image_analysis_results;
     typography_tags := inferred_typography_tags image_analysis_results |}.

(** The guidelines inferred when none are given: a layout preference and
    a set of design principles. *)
Definition infer_layout_preference (f : t) : string :=
  if bool_decide ("minimalist" ∈ mood_tags f) || Qgt_bool (avg_whitespace f) 0.75
  then "minimalist"
  else if bool_decide ("dense" ∈ mood_tags f) || Qlt_bool (avg_whitespace f) 0.25
  then "bold"
  else if bool_decide ("creative" ∈ mood_tags f)
          || bool_decide ("dynamic" ∈ mood_tags f)
          || Qgt_bool (avg_entropy f) 6.5
  then "modern"
  else "classic".

Definition when (b : bool) (tag : string) : gset string :=
  if b then {[ tag ]} else ∅.

Definition infer_design_principles (f : t) : gset string :=
  when (Qgt_bool (avg_h_symmetry f) 0.85 && Qgt_bool (avg_v_symmetry f) 0.85
        && Qgt_bool (avg_visual_balance f) 0.9) "structured"
  ∪ when (bool_decide ("creative" ∈ mood_tags f)
          || bool_decide ("dynamic" ∈ mood_tags f)
          || Qgt_bool (avg_entropy f) 6.0) "organic"
  ∪ when (bool_decide ("bold" ∈ typography_tags f)
          || Qlt_bool (avg_whitespace f) 0.3) "bold"
  ∪ when (bool_decide ("light" ∈ typography_tags f)
          || Qgt_bool (avg_whitespace f) 0.7) "subtle"
  ∪ when (Qge_bool (avg_aesthetic_score f) 8
          && Qlt_bool (avg_fractal_dimension f) 1.3) "clean"
  ∪ when (Qgt_bool (avg_fractal_dimension f) 1.7
          || Qgt_bool (avg_entropy f) 7.0) "complex".

(** The design principles in force: those of the guidelines, stripped and
    lower-cased, or the inferred ones when the guidelines are empty. *)
Definition design_principles (f : t) (brand_guidelines : BrandGuidelines.t)
    : gset string :=
  if BrandGuidelines.is_empty brand_guidelines then
    list_to_set (map (fun p => lower (strip p))
                     (elements (infer_design_principles f)))
  else
    match BrandGuidelines.designPrinciples brand_guidelines with
    | Some principles => list_to_set (map (fun p => lower (strip p)) principles)
    | None => ∅
    end.

End Aggregation.

(** ** [core/font_suggester.py] *)
Module FontSuggester.
Import Py Aggregation.
Local Open Scope Q_scope.

Definition GOLDEN_RATIO : Q := 1.61803398875.

Record pairing := {
  heading : string;
  body : string;
  moods_in_pairing : list string;
  styles_in_pairing : list string;
  pairing_complexity : Q;
  pairing_readability : Q
}.

Definition P (h b : string) (m s : list string) (c r : Q) : pairing :=
  {| heading := h; body := b; moods_in_pairing := m; styles_in_pairing := s;
     pairing_complexity := c; pairing_readability := r |}.

Definition FONT_PAIRINGS : list pairing := [
  P "Roboto" "Open Sans" ["modern"; "professional"; "calm"; "balanced"; "clean"; "structured"; "subtle"] ["sans-serif"; "light"; "geometric"; "clean"] 0.2 0.9;
  P "Playfair Display" "Lora" ["elegant"; "calm"; "professional"; "balanced"; "subtle"; "structured"] ["serif"; "light"; "classic"] 0.4 0.8;
  P "Montserrat" "Lato" ["vibrant"; "modern"; "playful"; "energetic"; "dynamic"; "bold"; "complex"] ["sans-serif"; "bold"; "geometric"; "display"] 0.6 0.7;
  P "Oswald" "Merriweather" ["bold"; "professional"; "modern"; "dense"; "structured"; "complex"] ["sans-serif"; "serif"; "bold"] 0.7 0.75;
  P "Pacifico" "Quicksand" ["playful"; "creative"; "vibrant"; "dynamic"; "organic"; "expressive"] ["script"; "sans-serif"; "expressive"] 0.8 0.6;
  P "Space Mono" "IBM Plex Sans" ["techy"; "modern"; "professional"; "dense"; "structured"; "complex"] ["monospace"; "sans-serif"; "geometric"] 0.7 0.8;
  P "Merriweather" "Open Sans" ["classic"; "professional"; "calm"; "balanced"; "subtle"; "clean"] ["serif"; "sans-serif"; "light"] 0.3 0.9;
  P "Lato" "Roboto" ["modern"; "professional"; "vibrant"; "balanced"; "clean"; "structured"] ["sans-serif"; "light"] 0.25 0.85;
  P "Rubik" "Noto Sans" ["modern"; "clean"; "minimalist"; "balanced"; "structured"; "subtle"] ["sans-serif"; "geometric"] 0.3 0.88;
  P "Source Code Pro" "Inter" ["techy"; "modern"; "professional"; "dense"; "structured"; "complex"] ["monospace"; "sans-serif"] 0.65 0.82;
  P "Dancing Script" "Josefin Sans" ["elegant"; "creative"; "playful"; "organic"; "expressive"] ["script"; "sans-serif"; "expressive"] 0.9 0.55;
  P "Bitter" "PT Sans" ["classic"; "professional"; "balanced"; "structured"] ["serif"; "sans-serif"] 0.45 0.8;
  P "Nunito Sans" "Fira Sans" ["modern"; "clean"; "light"; "minimalist"; "subtle"; "structured"] ["sans-serif"; "light"] 0.2 0.92;
  P "Anton" "Open Sans" ["bold"; "energetic"; "vibrant"; "dynamic"; "complex"] ["sans-serif"; "bold"; "display"] 0.85 0.65;
  P "Comfortaa" "Muli" ["playful"; "modern"; "clean"; "organic"; "subtle"] ["sans-serif"; "geometric"; "light"] 0.35 0.8;
  P "Fjalla One" "Roboto Condensed" ["bold"; "dense"; "energetic"; "structured"; "complex"] ["sans-serif"; "bold"] 0.75 0.7;
  P "Poppins" "Raleway" ["modern"; "clean"; "minimalist"; "balanced"; "structured"] ["sans-serif"; "geometric"; "light"] 0.3 0.9;
  P "Lora" "Noto Serif" ["elegant"; "classic"; "calm"; "balanced"; "subtle"] ["serif"; "classic"] 0.4 0.85;
  P "Bebas Neue" "Montserrat" ["bold"; "modern"; "energetic"; "dense"; "complex"] ["sans-serif"; "display"; "bold"] 0.8 0.68;
  P "Permanent Marker" "Indie Flower" ["creative"; "playful"; "expressive"; "organic"] ["script"; "display"; "expressive"] 0.95 0.5
].

Record font_scale := {
  scale_body : Z;
  scale_small : Z;
  scale_caption : Z;
  scale_h6 : Z;
  scale_h5 : Z;
  scale_h4 : Z;
  scale_h3 : Z;
  scale_h2 : Z;
  scale_h1 : Z;
  scale_display : Z
}.

Record recommendations := {
  line_height : string;
  letter_spacing : string
}.

Record suggestion := {
  heading_font : string;
  body_font : string;
  font_size_scale : font_scale;
  typographic_recommendations : recommendations
}.

Definition get_typographic_recommendations (heading_font body_font : string)
    (avg_whitespace avg_aesthetic_score avg_fractal_dimension avg_entropy : Q)
    (design_principles : gset string) : recommendations :=
  let has (tag : string) := bool_decide (tag ∈ design_principles) in
  {| line_height :=
       if Qgt_bool avg_whitespace 0.6 || Qge_bool avg_aesthetic_score 8
          || has "minimalist" || has "clean"
       then "relaxed"
       else if Qlt_bool avg_whitespace 0.4 || Qgt_bool avg_fractal_dimension 1.7
               || Qgt_bool avg_entropy 6.5 || has "dense" || has "complex"
       then "tight"
       else if has "professional" || has "balanced" then "normal"
       else "normal";
     letter_spacing :=
       if contains "display" (lower heading_font) || has "bold"
          || has "expressive" || has "vibrant"
       then "wide"
       else if has "light" || has "geometric" || has "minimalist" || has "clean"
       then "tight"
       else if contains "script" (lower heading_font)
               || contains "script" (lower body_font)
       then "normal"
       else "normal" |}.

(** [next((r for h, b, m, s, c, r in FONT_PAIRINGS if h == heading and
    b == body), 0)]: the readability of the first pairing with these two
    fonts, a float, or the int 0. *)
Definition next_readability (h b : string) : Q :=
  match find (fun p => String.eqb (heading p) h && String.eqb (body p) b)
             FONT_PAIRINGS with
  | Some p => pairing_readability p
  | None => 0
  end.

(** [x[i]] where [x] is a float or an int: numbers cannot be
    subscripted. *)
Definition subscript_number (x : Q) (i : Z) : result Q := Raise TypeError.

(** A brand font is given when the key holds a non-empty string. *)
Definition given (font : option string) : bool :=
  match font with
  | Some s => truthy s
  | None => false
  end.

Definition font_is (font : option string) (name : string) : bool :=
  match font with
  | Some s => truthy s && String.eqb s name
  | None => false
  end.

Section WithPower.

(** [x ** y] on floats, used at the exponent 1.5. *)
Variable fpow : Q -> Q -> Q.

Definition calculate_golden_ratio_font_scale (base_size avg_whitespace
    avg_aesthetic_score avg_fractal_dimension avg_entropy : Q) : font_scale :=
  let adjusted_golden_ratio :=
    if Qge_bool avg_aesthetic_score 8 then GOLDEN_RATIO + 0.07
    else if Qle_bool avg_aesthetic_score 4 then GOLDEN_RATIO - 0.07
    else GOLDEN_RATIO in
  let adjusted_golden_ratio := adjusted_golden_ratio + avg_whitespace * 0.03 in
  let adjusted_golden_ratio :=
    if Qgt_bool avg_fractal_dimension 1.7 || Qgt_bool avg_entropy 6.5
    then adjusted_golden_ratio * 0.98
    else if Qlt_bool avg_fractal_dimension 1.3 || Qlt_bool avg_entropy 3.0
    then adjusted_golden_ratio * 1.02
    else adjusted_golden_ratio in
  let at_least_1 (x : Q) : Z := Z.max 1 (round x) in
  {| scale_body := at_least_1 base_size;
     scale_small := at_least_1 (base_size / adjusted_golden_ratio);
     scale_caption := at_least_1 (base_size / fpow adjusted_golden_ratio 1.5);
     scale_h6 := at_least_1 (base_size * adjusted_golden_ratio);
     scale_h5 := at_least_1 (base_size * adjusted_golden_ratio ^ 2);
     scale_h4 := at_least_1 (base_size * adjusted_golden_ratio ^ 3);
     scale_h3 := at_least_1 (base_size * adjusted_golden_ratio ^ 4);
     scale_h2 := at_least_1 (base_size * adjusted_golden_ratio ^ 5);
     scale_h1 := at_least_1 (base_size * adjusted_golden_ratio ^ 6);
     scale_display := at_least_1 (base_size * adjusted_golden_ratio ^ 7) |}.

(** The match score of one catalogue entry. *)
Definition current_matches (f : Aggregation.t)
    (inferred_mood_tags inferred_style_tags : gset string)
    (brand_guideline_heading_font brand_guideline_body_font : option string)
    (p : pairing) : Q :=
  let in_styles (tag : string) := bool_decide (tag ∈ inferred_style_tags) in
  let in_moods (tag : string) := bool_decide (tag ∈ inferred_mood_tags) in
  let pairing_has (tags : list string) (tag : string) :=
    existsb (String.eqb tag) tags in
  let bonus (b : bool) (x : Q) := if b then x else 0 in
  0
  + inject_Z (Z.of_nat (size (inferred_mood_tags
                                ∩ list_to_set (moods_in_pairing p)))) * 2
  + inject_Z (Z.of_nat (size (inferred_style_tags
                                ∩ list_to_set (styles_in_pairing p)))) * 1.5
  + bonus (in_styles "clean" && pairing_has (styles_in_pairing p) "geometric"
           && Qlt_bool (avg_fractal_dimension f) 1.3) 2.0
  + bonus (in_styles "complex" && pairing_has (styles_in_pairing p) "expressive"
           && Qgt_bool (avg_entropy f) 6.5) 2.0
  + bonus (in_styles "structured" && Qgt_bool (avg_h_symmetry f) 0.7
           && Qgt_bool (avg_v_symmetry f) 0.7
           && Qgt_bool (avg_visual_balance f) 0.8) 1.5
  + bonus (in_styles "organic"
           && (Qlt_bool (avg_h_symmetry f) 0.6 || Qlt_bool (avg_v_symmetry f) 0.6)
           && in_moods "dynamic") 1.5
  + bonus (Qge_bool (avg_aesthetic_score f) 7
           && (pairing_has (moods_in_pairing p) "professional"
               || pairing_has (moods_in_pairing p) "balanced")) 1.0
  + bonus (Qlt_bool (avg_whitespace f) 0.4
           && Qgt_bool (pairing_readability p) 0.8) 1.0
  - Qabs (avg_fractal_dimension f - pairing_complexity p * 2) * 0.5
  + (1 - Qabs (avg_entropy f - pairing_complexity p * 8)) * 0.2
  + bonus (font_is brand_guideline_heading_font (heading p)) 3
  + bonus (font_is brand_guideline_body_font (body p)) 3.

(** One turn of the loop over [FONT_PAIRINGS]; the state is
    [(best_match_pairing, max_matches)]. *)
Definition consider (f : Aggregation.t)
    (inferred_mood_tags inferred_style_tags : gset string)
    (brand_guideline_heading_font brand_guideline_body_font : option string)
    (state : option (string * string) * Q) (p : pairing)
    : result (option (string * string) * Q) :=
  let '(best_match_pairing, max_matches) := state in
  let score := Qred (current_matches f inferred_mood_tags inferred_style_tags
                       brand_guideline_heading_font brand_guideline_body_font p) in
  if Qgt_bool score max_matches then Ok (Some (heading p, body p), score)
  else
    match best_match_pairing with
    | Some best =>
        if Qeq_bool score max_matches then
          let! current_pairing_readability :=
            subscript_number (next_readability (heading p) (body p)) 5 in
          let! best_pairing_readability :=
            subscript_number (next_readability (fst best) (snd best)) 5 in
          if font_is brand_guideline_heading_font (heading p)
             || font_is brand_guideline_body_font (body p)
          then Ok (Some (heading p, body p), max_matches)
          else if Qlt_bool (avg_whitespace f) 0.4
                  && Qgt_bool current_pairing_readability best_pairing_readability
          then Ok (Some (heading p, body p), max_matches)
          else Ok state
        else Ok state
    | None => Ok state
    end.

Fixpoint best_match (f : Aggregation.t)
    (inferred_mood_tags inferred_style_tags : gset string)
    (brand_guideline_heading_font brand_guideline_body_font : option string)
    (catalog : list pairing) (state : option (string * string) * Q)
    : result (option (string * string) * Q) :=
  match catalog with
  | [] => Ok state
  | p :: rest =>
      let! state := consider f inferred_mood_tags inferred_style_tags
                      brand_guideline_heading_font brand_guideline_body_font
                      state p in
      best_match f inferred_mood_tags inferred_style_tags
        brand_guideline_heading_font brand_guideline_body_font rest state
  end.

(** The base body size of step 3. *)
Definition adjusted_base_font_size (f : Aggregation.t) : Q :=
  let base_font_size_px :=
    16 + avg_whitespace f * 6 + avg_aesthetic_score f / 10 * 4 in
  if Qlt_bool (avg_fractal_dimension f) 1.3 || Qlt_bool (avg_entropy f) 3.0
  then base_font_size_px * 1.05
  else if Qgt_bool (avg_fractal_dimension f) 1.7 || Qgt_bool (avg_entropy f) 6.5
  then base_font_size_px * 0.95
  else base_font_size_px.

Definition suggest_fonts (image_analysis_results : list Analysis.t)
    (brand_guidelines : BrandGuidelines.t) : result suggestion :=
  let suggested_heading_font := "Roboto" in
  let suggested_body_font := "Open Sans" in
  let base_font_size_px := 16 in
  let f := aggregate image_analysis_results in
  let design_principles_from_bg := design_principles f brand_guidelines in
  let brand_guideline_heading_font := BrandGuidelines.headingFont brand_guidelines in
  let brand_guideline_body_font := BrandGuidelines.bodyFont brand_guidelines in
  if given brand_guideline_heading_font && given brand_guideline_body_font then
    let h := default "" brand_guideline_heading_font in
    let b := default "" brand_guideline_body_font in
    Ok {| heading_font := h;
          body_font := b;
          font_size_scale :=
            calculate_golden_ratio_font_scale base_font_size_px
              (avg_whitespace f) (avg_aesthetic_score f)
              (avg_fractal_dimension f) (avg_entropy f);
          typographic_recommendations :=
            get_typographic_recommendations h b
              (avg_whitespace f) (avg_aesthetic_score f)
              (avg_fractal_dimension f) (avg_entropy f)
              design_principles_from_bg |}
  else
    let inferred_mood_tags := mood_tags f ∪ design_principles_from_bg in
    let inferred_style_tags := typography_tags f ∪ design_principles_from_bg in
    let! final :=
      best_match f inferred_mood_tags inferred_style_tags
        brand_guideline_heading_font brand_guideline_body_font
        FONT_PAIRINGS (None, -1) in
    let best_match_pairing := fst final in
    let suggested_heading_font :=
      match best_match_pairing with
      | Some best =>
          if given brand_guideline_heading_font then suggested_heading_font
          else fst best
      | None => suggested_heading_font
      end in
    let suggested_body_font :=
      match best_match_pairing with
      | Some best =>
          if given brand_guideline_body_font then suggested_body_font
          else snd best
      | None => suggested_body_font
      end in
    let base_font_size_px := adjusted_base_font_size f in
    Ok {| heading_font := suggested_heading_font;
          body_font := suggested_body_font;
          font_size_scale :=
            calculate_golden_ratio_font_scale base_font_size_px
              (avg_whitespace f) (avg_aesthetic_score f)
              (avg_fractal_dimension f) (avg_entropy f);
          typographic_recommendations :=
            get_typographic_recommendations suggested_heading_font
              suggested_body_font
              (avg_whitespace f) (avg_aesthetic_score f)
              (avg_fractal_dimension f) (avg_entropy f)
              design_principles_from_bg |}.

End WithPower.

End FontSuggester.

(** ** [core/brand_guideline_parser.py] *)
Module BrandGuidelineParser.
Import Py.

(** A value as [json.load] returns it. *)
#[local] Unset Elimination Schemes.
Inductive json : Type :=
| JNull
| JBool (b : bool)
| JNumber (q : Q)
| JString (s : string)
| JArray (items : list json)
| JObject (members : gmap string json).
#[local] Set Elimination Schemes.

(** What is found at [guidelines_path]. *)
Inductive file : Type :=
| NotFound
| InvalidJSON
| Content (guidelines : json).

(** The lines the parser prints. *)
Inductive diagnostic : Type :=
| FileNotFoundWarning
| InvalidFormatWarning (key : string)
| InvalidValueWarning (key : string)
| LoadedSuccessfully
| InvalidJSONError
| UnexpectedError.

Definition color_keys : list string :=
  ["primaryColor"; "secondaryColor"; "accentColor"].
Definition font_keys : list string := ["headingFont"; "bodyFont"].
Definition layout_preferences : list string :=
  ["minimalist"; "bold"; "classic"; "modern"].

(** [isinstance(v, str) and v.startswith("#") and len(v) in [7, 4]] *)
Definition valid_color (v : json) : option string :=
  match v with
  | JString s =>
      if startswith "#" s
         && ((String.length s =? 7)%nat || (String.length s =? 4)%nat)
      then Some s else None
  | _ => None
  end.

(** [isinstance(v, str) and v] *)
Definition valid_font (v : json) : option string :=
  match v with
  | JString s => if truthy s then Some s else None
  | _ => None
  end.

(** [isinstance(v, str) and v in ["minimalist", "bold", "classic", "modern"]] *)
Definition valid_layout (v : json) : option string :=
  match v with
  | JString s => if existsb (String.eqb s) layout_preferences then Some s else None
  | _ => None
  end.

(** One validated key: the value kept, if any, and the warning printed
    when the key is there but its value is refused. *)
Definition checked (valid : json -> option string)
    (warning : string -> diagnostic) (guidelines : gmap string json)
    (key : string) : option string * list diagnostic :=
  match guidelines !! key with
  | Some v =>
      match valid v with
      | Some s => (Some s, [])
      | None => (None, [warning key])
      end
  | None => (None, [])
  end.

Definition validate (guidelines : gmap string json)
    : BrandGuidelines.t * list diagnostic :=
  let color := checked valid_color InvalidFormatWarning guidelines in
  let font := checked valid_font InvalidFormatWarning guidelines in
  let layout := checked valid_layout InvalidValueWarning guidelines in
  ({| BrandGuidelines.primaryColor := fst (color "primaryColor");
      BrandGuidelines.secondaryColor := fst (color "secondaryColor");
      BrandGuidelines.accentColor := fst (color "accentColor");
      BrandGuidelines.headingFont := fst (font "headingFont");
      BrandGuidelines.bodyFont := fst (font "bodyFont");
      BrandGuidelines.layoutPreference := fst (layout "layoutPreference");
      BrandGuidelines.designPrinciples := None |},
   (snd (color "primaryColor") ++ snd (color "secondaryColor")
    ++ snd (color "accentColor") ++ snd (font "headingFont")
    ++ snd (font "bodyFont") ++ snd (layout "layoutPreference")
    ++ [LoadedSuccessfully])%list).

Definition keys_checked : list string :=
  (color_keys ++ font_keys ++ ["layoutPreference"])%list.

Definition is_string (key : string) (v : json) : bool :=
  match v with
  | JString s => String.eqb s key
  | _ => false
  end.

Definition parse_brand_guidelines (at_path : file)
    : BrandGuidelines.t * list diagnostic :=
  match at_path with
  | NotFound => (BrandGuidelines.empty, [FileNotFoundWarning])
  | InvalidJSON => (BrandGuidelines.empty, [InvalidJSONError])
  | Content (JObject guidelines) => validate guidelines
  | Content (JArray items) =>
      (* [key in items] holds for a key: indexing the list with it raises *)
      if existsb (fun key => existsb (is_string key) items) keys_checked
      then (BrandGuidelines.empty, [UnexpectedError])
      else (BrandGuidelines.empty, [LoadedSuccessfully])
  | Content (JString s) =>
      (* [key in s] is a substring test: indexing the string raises *)
      if existsb (fun key => contains key s) keys_checked
      then (BrandGuidelines.empty, [UnexpectedError])
      else (BrandGuidelines.empty, [LoadedSuccessfully])
  | Content _ =>
      (* [key in guidelines] raises on a number, a boolean or null *)
      (BrandGuidelines.empty, [UnexpectedError])
  end.

End BrandGuidelineParser.

(** ** The specification's formula for the symmetry score

    The specification states the score as one minus the sum of the exact
    absolute differences [|top - flipped bottom|] over
    [255 * number of matched pixels].  These definitions follow those words
    and are compared below with the ones taken from the source. *)
Module SymmetrySpec.
Import ImageAnalyzer.
Local Open Scope Q_scope.

Definition sum_exact_abs_diff (a b : gray_image) : Z :=
  sumZ (concat (zip_with (zip_with (fun x y => Z.abs (x - y))) a b)).

Definition score (diff : Z) (matched : nat) : Q :=
  1 - inject_Z diff / inject_Z (255 * Z.of_nat matched).

Definition horizontal (img : gray_image) : Q :=
  let h := height img in
  let w := width img in
  let top := take (h / 2) img in
  let bottom_flipped := reverse (drop (h / 2 + h mod 2) img) in
  if (0 <? h / 2 * w)%nat
  then score (sum_exact_abs_diff top bottom_flipped) (h / 2 * w)
  else 0.

Definition vertical (img : gray_image) : Q :=
  let h := height img in
  let w := width img in
  let left := map (take (w / 2)) img in
  let right_flipped := map reverse (map (drop (w / 2 + w mod 2)) img) in
  if (0 <? h * (w / 2))%nat
  then score (sum_exact_abs_diff left right_flipped) (h * (w / 2))
  else 0.

End SymmetrySpec.

(** ** Inputs used in the examples below *)
Module Samples.
Local Open Scope Q_scope.

(** [{"designPrinciples": ["dense"]}] *)
Definition dense_principle : BrandGuidelines.t :=
  {| BrandGuidelines.primaryColor := None;
     BrandGuidelines.secondaryColor := None;
     BrandGuidelines.accentColor := None;
     BrandGuidelines.headingFont := None;
     BrandGuidelines.bodyFont := None;
     BrandGuidelines.layoutPreference := None;
     BrandGuidelines.designPrinciples := Some ["dense"] |}.

(** [{"designPrinciples": ["elegant"]}] *)
Definition elegant_principle : BrandGuidelines.t :=
  {| BrandGuidelines.primaryColor := None;
     BrandGuidelines.secondaryColor := None;
     BrandGuidelines.accentColor := None;
     BrandGuidelines.headingFont := None;
     BrandGuidelines.bodyFont := None;
     BrandGuidelines.layoutPreference := None;
     BrandGuidelines.designPrinciples := Some ["elegant"] |}.

(** [{"headingFont": "Georgia", "bodyFont": "Verdana"}], the guidelines of
    test 3 in [font_suggester.py]. *)
Definition georgia_verdana : BrandGuidelines.t :=
  {| BrandGuidelines.primaryColor := None;
     BrandGuidelines.secondaryColor := None;
     BrandGuidelines.accentColor := None;
     BrandGuidelines.headingFont := Some "Georgia";
     BrandGuidelines.bodyFont := Some "Verdana";
     BrandGuidelines.layoutPreference := None;
     BrandGuidelines.designPrinciples := None |}.

(** A 2 x 2 image of the solid colour (0, 0, 100); its grayscale
    conversion has intensity 11 everywhere. *)
Definition dark_blue : ImageAnalyzer.decoded :=
  {| ImageAnalyzer.img_array_rgb := replicate 2 (replicate 2 (0, 0, 100)%Z);
     ImageAnalyzer.img_array_gray := ImageAnalyzer.uniform 2 2 11;
     ImageAnalyzer.img_base64 := "" |}.

(** A 2 x 2 image of the solid colour (128, 128, 128). *)
Definition mid_gray : ImageAnalyzer.decoded :=
  {| ImageAnalyzer.img_array_rgb := replicate 2 (replicate 2 (128, 128, 128)%Z);
     ImageAnalyzer.img_array_gray := ImageAnalyzer.uniform 2 2 128;
     ImageAnalyzer.img_base64 := "" |}.

(** An analysis record whose mood string joins "neutral" with another
    tag. *)
Definition neutral_muted : Analysis.t :=
  {| Analysis.symmetry := None;
     Analysis.whitespace_percentage := None;
     Analysis.aspect_ratio := None;
     Analysis.golden_ratio_aspect_match := false;
     Analysis.fractal_dimension := None;
     Analysis.entropy := None;
     Analysis.visual_balance_score := None;
     Analysis.typography_inference := Some "unknown";
     Analysis.mood_emotion := Some "neutral, muted";
     Analysis.aesthetic_neural_score := None |}.

(** Two pixels, one above the other: intensities 0 and 1. *)
Definition two_rows : ImageAnalyzer.gray_image := [[0%Z]; [1%Z]].

(** Two pixels side by side: intensities 0 and 1. *)
Definition two_columns : ImageAnalyzer.gray_image := [[0%Z; 1%Z]].

(** An 8 x 8 black image. *)
Definition black_8x8 : ImageAnalyzer.gray_image := ImageAnalyzer.uniform 8 8 0.

(** [{"primaryColor": "#1A73E8", "designPrinciples": ["clean"],
     "invalidKey": 123}] *)
Definition guidelines_file : BrandGuidelineParser.file :=
  BrandGuidelineParser.Content
    (BrandGuidelineParser.JObject
       (<["primaryColor" := BrandGuidelineParser.JString "#1A73E8"]>
          (<["designPrinciples" :=
               BrandGuidelineParser.JArray [BrandGuidelineParser.JString "clean"]]>
             (<["invalidKey" := BrandGuidelineParser.JNumber 123]> ∅)))).

(** The pairing at a position of the catalogue. *)
Definition entry (i : nat) : FontSuggester.pairing :=
  nth i FontSuggester.FONT_PAIRINGS (FontSuggester.P "" "" [] [] 0 0).

(** A stand-in for the float power, to run the code on examples. *)
Definition square_pow (x _ : Q) : Q := x * x.

End Samples.

(** ** Statements about solid-colour images and about aggregated tags *)
Module Stated.
Import ImageAnalyzer.

(** What the specification expects of the metrics of a solid image. *)
Definition solid_metrics (img : gray_image) : Prop :=
  calculate_fractal_dimension img 128 = 0%R
  /\ calculate_image_entropy img = 0%R
  /\ calculate_visual_balance_score img = 1%R
  /\ (symmetry_horizontal img == 1)%Q
  /\ (symmetry_vertical img == 1)%Q.

(** A float in the closed interval from 0 to 1. *)
Definition unit_interval (x : Q) : Prop := (0 <= x /\ x <= 1)%Q.

(** The tags of a comma-separated tag string. *)
Definition tags_of (s : string) : list string := map Py.strip (Py.split "," s).

(** A record's tag string contributes [tag] to the aggregate: the string
    is there, is not empty, is not the sentinel itself, and lists
    [tag]. *)
Definition contributes (sentinel : string) (field : option string)
    (tag : string) : Prop :=
  exists s, field = Some s /\ s <> "" /\ s <> sentinel /\ In tag (tags_of s).

End Stated.

(** ** [core/palette_extractor.py]: [hex_to_rgb] *)
Module HexColors.
Import Py PaletteExtractor.

(** [hex_color.lstrip('#')] *)
Fixpoint lstrip_hash (s : string) : string :=
  match s with
  | String c s' => if Ascii.eqb c "#" then lstrip_hash s' else s
  | EmptyString => EmptyString
  end.

(** Value of a digit in base 16, either case. *)
Definition hex_digit_value (c : ascii) : option Z :=
  let n := nat_of_ascii c in
  if ((48 <=? n) && (n <=? 57))%nat then Some (Z.of_nat n - 48)%Z
  else if ((97 <=? n) && (n <=? 102))%nat then Some (Z.of_nat n - 87)%Z
  else if ((65 <=? n) && (n <=? 70))%nat then Some (Z.of_nat n - 55)%Z
  else None.

(** The digit scan of [int(s, 16)]: digits with single underscores between
    them, up to the first other character.  Yields the value, the number of
    digits and the rest; [None] on a doubled or trailing underscore. *)
Fixpoint scan16 (s : string) (acc : Z) (prev_underscore : bool) (digits : nat)
    : option (Z * nat * string) :=
  match s with
  | EmptyString => if prev_underscore then None else Some (acc, digits, EmptyString)
  | String c rest =>
      if Ascii.eqb c "_" then
        if prev_underscore then None else scan16 rest acc true digits
      else
        match hex_digit_value c with
        | Some d => scan16 rest (16 * acc + d)%Z false (S digits)
        | None => if prev_underscore then None else Some (acc, digits, s)
        end
  end.

(** [int(s, 16)] on a string: optional blanks, an optional sign, an
    optional [0x] prefix (one underscore may follow it), the digits,
    optional blanks.  [None] when Python raises [ValueError]. *)
Definition int16 (s : string) : option Z :=
  let s := lstrip s in
  let '(sign, s) :=
    match s with
    | String "+" rest => (1%Z, rest)
    | String "-" rest => ((-1)%Z, rest)
    | _ => (1%Z, s)
    end in
  let s :=
    match s with
    | String "0" (String x rest) =>
        if Ascii.eqb x "x" || Ascii.eqb x "X" then
          match rest with
          | String "_" rest' => rest'
          | _ => rest
          end
        else s
    | _ => s
    end in
  match s with
  | String "_" _ => None
  | _ =>
      match scan16 s 0%Z false 0 with
      | Some (value, digits, rest) =>
          if (digits =? 0)%nat then None
          else match lstrip rest with
               | EmptyString => Some (sign * value)%Z
               | _ => None
               end
      | None => None
      end
  end.

(** [tuple(int(hex_color[i:i+2], 16) for i in (0, 2, 4))] after the leading
    [#]s are stripped; [None] when one of the conversions raises. *)
Definition hex_to_rgb (hex_color : string) : option rgb :=
  let hex_color := lstrip_hash hex_color in
  match int16 (substring 0 2 hex_color) with
  | Some r =>
      match int16 (substring 2 2 hex_color) with
      | Some g =>
          match int16 (substring 4 2 hex_color) with
          | Some b => Some (r, g, b)
          | None => None
          end
      | None => None
      end
  | None => None
  end.

(** [n] is written by [format_02x] as two characters, the first of them
    not [#], that [int16] reads back as [n]. *)
Definition two_hex_digits (n : Z) : bool :=
  match format_02x n with
  | String a (String b EmptyString) =>
      negb (Ascii.eqb a "#")
      && match int16 (String a (String b EmptyString)) with
         | Some m => Z.eqb m n
         | None => false
         end
  | _ => false
  end.

End HexColors.

(** ** Arrays as NumPy holds them *)
Module Arrays.
Import ImageAnalyzer.

(** Every row is as long as the first. *)
Definition rectangular {A : Type} (img : list (list A)) : Prop :=
  Forall (fun row => List.length row = width img) img.

(** Every entry is a [uint8]. *)
Definition uint8_array (img : gray_image) : Prop :=
  Forall (Forall (fun v => (0 <= v <= 255)%Z)) img.

(** [np.flipud] and [np.fliplr] *)
Definition flipud {A : Type} (img : list (list A)) : list (list A) := reverse img.
Definition fliplr {A : Type} (img : list (list A)) : list (list A) := map reverse img.

End Arrays.

(** ** Further inputs used in the examples below *)
Module Examples.

(** A 2 x 2 image: one dark, one mid-grey and two light pixels. *)
Definition four_pixels : ImageAnalyzer.gray_image :=
  [[0%Z; 128%Z]; [250%Z; 255%Z]].

(** The record of an analysed image: 42.5 % whitespace, aesthetic
    score 7. *)
Definition analysed : Analysis.t :=
  {| Analysis.symmetry :=
       Some {| Analysis.horizontal := Some 0.9%Q; Analysis.vertical := Some 0.6%Q |};
     Analysis.whitespace_percentage := Some 42.5%Q;
     Analysis.aspect_ratio := Some 1.5%Q;
     Analysis.golden_ratio_aspect_match := false;
     Analysis.fractal_dimension := Some 1.45%Q;
     Analysis.entropy := Some 5.2%Q;
     Analysis.visual_balance_score := Some 0.8%Q;
     Analysis.typography_inference := Some "geometric";
     Analysis.mood_emotion := Some "calm, professional";
     Analysis.aesthetic_neural_score :=
       Some {| Analysis.aesthetic_score := Some 7%Q;
               Analysis.aesthetic_explanation := "Simulated" |} |}.

(** [{"headingFont": "Georgia"}]: a brand heading font and no body
    font. *)
Definition georgia_only : BrandGuidelines.t :=
  {| BrandGuidelines.primaryColor := None;
     BrandGuidelines.secondaryColor := None;
     BrandGuidelines.accentColor := None;
     BrandGuidelines.headingFont := Some "Georgia";
     BrandGuidelines.bodyFont := None;
     BrandGuidelines.layoutPreference := None;
     BrandGuidelines.designPrinciples := None |}.

End Examples.

(** ** Analysis records with their values in range *)
Module Ranges.
Local Open Scope Q_scope.

(** The whitespace percentage, where present, is within 0..100 and the
    aesthetic score, where present, within 0..10. *)
Definition in_range (a : Analysis.t) : Prop :=
  (forall w, Analysis.whitespace_percentage a = Some w -> 0 <= w /\ w <= 100)
  /\ (forall s, Aggregation.score_field a = Some s -> 0 <= s /\ s <= 10).

End Ranges.

(** ** What the parser promises about a value it returns *)
Module Wellformed.
Import Py.

(** A colour is [#] followed by three or six more characters. *)
Definition color_ok (c : option string) : Prop :=
  forall s, c = Some s ->
    startswith "#" s = true /\ (String.length s = 7%nat \/ String.length s = 4%nat).

Definition font_ok (font : option string) : Prop :=
  forall s, font = Some s -> s <> "".

Definition layout_ok (preference : option string) : Prop :=
  forall s, preference = Some s -> In s BrandGuidelineParser.layout_preferences.

Definition guidelines_ok (g : BrandGuidelines.t) : Prop :=
  color_ok (BrandGuidelines.primaryColor g)
  /\ color_ok (BrandGuidelines.secondaryColor g)
  /\ color_ok (BrandGuidelines.accentColor g)
  /\ font_ok (BrandGuidelines.headingFont g)
  /\ font_ok (BrandGuidelines.bodyFont g)
  /\ layout_ok (BrandGuidelines.layoutPreference g).

End Wellformed.

(** ** [core/layout_generator.py]: the decisions of [generate_layout]

    What [generate_layout] settles before it fills its HTML template:
    the guidelines in force, the layout style and the spacing scale.  The
    template text itself is not modelled. *)
Module LayoutGenerator.
Import Py Aggregation.
Local Open Scope Q_scope.

Definition GOLDEN_RATIO : Q := 1.61803398875.

(** [brand_guidelines.copy() if brand_guidelines else {}], filled with the
    inferred layout preference and design principles when it is empty. *)
Definition active_brand_guidelines (f : Aggregation.t)
    (brand_guidelines : BrandGuidelines.t) : BrandGuidelines.t :=
  if BrandGuidelines.is_empty brand_guidelines then
    {| BrandGuidelines.primaryColor := None;
       BrandGuidelines.secondaryColor := None;
       BrandGuidelines.accentColor := None;
       BrandGuidelines.headingFont := None;
       BrandGuidelines.bodyFont := None;
       BrandGuidelines.layoutPreference := Some (infer_layout_preference f);
       BrandGuidelines.designPrinciples :=
         Some (elements (infer_design_principles f)) |}
  else brand_guidelines.

(** The layout style after the override by the layout preference. *)
Definition overridden_layout_style (active : BrandGuidelines.t)
    (layout_style : string) : string :=
  match BrandGuidelines.layoutPreference active with
  | Some preference =>
      if String.eqb preference "minimalist" then "minimal"
      else if String.eqb preference "bold" then "dense"
      else if String.eqb preference "classic" then "minimal"
      else if String.eqb preference "modern" then "creative"
      else layout_style
  | None => layout_style
  end.

Definition base_spacing_unit (f : Aggregation.t) : Q :=
  let base_spacing_unit := 16 in
  let base_spacing_unit := base_spacing_unit + avg_whitespace f * 20 in
  let base_spacing_unit := base_spacing_unit + avg_visual_balance f * 10 in
  let base_spacing_unit := base_spacing_unit + avg_aesthetic_score f / 10 * 10 in
  if Qgt_bool (avg_fractal_dimension f) 1.7 || Qgt_bool (avg_entropy f) 6.5
  then base_spacing_unit * 0.9
  else if Qlt_bool (avg_fractal_dimension f) 1.3 || Qlt_bool (avg_entropy f) 3.0
  then base_spacing_unit * 1.1
  else base_spacing_unit.

Record spacing := {
  golden_spacing_xs : Z;
  golden_spacing_sm : Z;
  golden_spacing_md : Z;
  golden_spacing_lg : Z;
  golden_spacing_xl : Z;
  golden_spacing_2xl : Z
}.

Definition golden_spacing (base_spacing_unit : Q) : spacing :=
  {| golden_spacing_xs := round (base_spacing_unit / GOLDEN_RATIO ^ 2);
     golden_spacing_sm := round (base_spacing_unit / GOLDEN_RATIO);
     golden_spacing_md := round base_spacing_unit;
     golden_spacing_lg := round (base_spacing_unit * GOLDEN_RATIO);
     golden_spacing_xl := round (base_spacing_unit * GOLDEN_RATIO ^ 2);
     golden_spacing_2xl := round (base_spacing_unit * GOLDEN_RATIO ^ 3) |}.

Record decisions := {
  active : BrandGuidelines.t;
  layout_style_used : string;
  design_principles_used : gset string;
  spacing_used : spacing
}.

(** [generate_layout] up to its template. *)
Definition generate_layout (image_analysis_results : list Analysis.t)
    (brand_guidelines : BrandGuidelines.t) (layout_style : string) : decisions :=
  let f := aggregate image_analysis_results in
  let active_brand_guidelines := active_brand_guidelines f brand_guidelines in
  {| active := active_brand_guidelines;
     layout_style_used := overridden_layout_style active_brand_guidelines layout_style;
     design_principles_used := design_principles f brand_guidelines;
     spacing_used := golden_spacing (base_spacing_unit f) |}.

End LayoutGenerator.
(** * Properties *)

(** ** Facts about the runtime model and [colorsys] *)
Module ColorsysFacts.
Import Py Colorsys Stated.
Local Open Scope Q_scope.

Lemma Qlt_bool_iff (x y : Q) : Qlt_bool x y = true <-> x < y.
Proof.
  unfold Qlt_bool. rewrite negb_true_iff, <- not_true_iff_false, Qle_bool_iff.
  split; [apply Qnot_le_lt | apply Qlt_not_le].
Qed.

Lemma Qlt_bool_false (x y : Q) : Qlt_bool x y = false <-> y <= x.
Proof.
  unfold Qlt_bool. rewrite negb_false_iff. apply Qle_bool_iff.
Qed.

Lemma Qle_bool_false (x y : Q) : Qle_bool x y = false <-> y < x.
Proof.
  rewrite <- not_true_iff_false, Qle_bool_iff.
  split; [apply Qnot_le_lt | apply Qlt_not_le].
Qed.

Lemma fmod1_range (x : Q) : 0 <= fmod1 x /\ fmod1 x < 1.
Proof.
  unfold fmod1. pose proof (Qfloor_le x) as Hlo. pose proof (Qlt_floor x) as Hhi.
  rewrite inject_Z_plus in Hhi. change (inject_Z 1) with 1 in Hhi.
  split; Lqa.lra.
Qed.

Lemma _v_range (m1 m2 hue : Q) :
  0 <= m1 -> m1 <= m2 -> m2 <= 1 -> unit_interval (_v m1 m2 hue).
Proof.
  intros H0 H12 H1. unfold _v, unit_interval.
  destruct (fmod1_range hue) as [Hlo Hhi].
  set (u := fmod1 hue) in *.
  destruct (Qlt_bool u ONE_SIXTH) eqn:E1.
  { apply Qlt_bool_iff in E1. unfold ONE_SIXTH in E1. split; Lqa.nra. }
  destruct (Qlt_bool u (1 # 2)) eqn:E2.
  { split; Lqa.lra. }
  destruct (Qlt_bool u TWO_THIRD) eqn:E3.
  { apply Qlt_bool_iff in E3. apply Qlt_bool_false in E2.
    unfold TWO_THIRD in *. split; Lqa.nra. }
  split; Lqa.lra.
Qed.

Lemma unit_interval_Qred (x : Q) : unit_interval x -> unit_interval (Qred x).
Proof. unfold unit_interval. rewrite Qred_correct. tauto. Qed.

(** With lightness and saturation in [0, 1], [hls_to_rgb] stays in the
    unit cube, whatever the hue. *)
Lemma hls_to_rgb_range (h l s : Q) :
  unit_interval l -> unit_interval s ->
  let '(r, g, b) := hls_to_rgb h l s in
  unit_interval r /\ unit_interval g /\ unit_interval b.
Proof.
  intros [Hl0 Hl1] [Hs0 Hs1]. unfold hls_to_rgb.
  destruct (Qeq_bool s 0); [unfold unit_interval; tauto |].
  destruct (Qle_bool l (1 # 2)) eqn:E.
  - apply Qle_bool_iff in E.
    repeat split; apply unit_interval_Qred, _v_range; Lqa.nra.
  - apply Qle_bool_false in E.
    repeat split; apply unit_interval_Qred, _v_range; Lqa.nra.
Qed.

Lemma Qdiv_unit (a b : Q) : 0 <= a -> a <= b -> 0 < b -> unit_interval (a / b).
Proof.
  intros Ha Hab Hb. split.
  - apply Qle_shift_div_l; [exact Hb | Lqa.lra].
  - apply Qle_shift_div_r; [exact Hb | Lqa.lra].
Qed.

(** On the unit cube, [rgb_to_hls] yields a lightness and a saturation in
    [0, 1]. *)
Lemma rgb_to_hls_range (r g b : Q) :
  unit_interval r -> unit_interval g -> unit_interval b ->
  let '(_, l, s) := rgb_to_hls r g b in unit_interval l /\ unit_interval s.
Proof.
  intros [Hr0 Hr1] [Hg0 Hg1] [Hb0 Hb1]. unfold rgb_to_hls.
  set (maxc := Qmax r (Qmax g b)). set (minc := Qmin r (Qmin g b)).
  assert (Hmax1 : maxc <= 1) by (unfold maxc; repeat apply Q.max_lub; assumption).
  assert (Hmin0 : 0 <= minc) by (unfold minc; repeat apply Q.min_glb; assumption).
  assert (Hmm : minc <= maxc).
  { unfold minc, maxc. eapply Qle_trans; [apply Q.le_min_l | apply Q.le_max_l]. }
  assert (Hl : unit_interval ((maxc + minc) / 2)).
  { split; [apply Qle_shift_div_l | apply Qle_shift_div_r]; Lqa.lra. }
  destruct (Qeq_bool minc maxc) eqn:Eeq.
  { split; [exact Hl | split; Lqa.lra]. }
  assert (Hne : minc < maxc).
  { apply Qeq_bool_neq in Eeq. apply Qle_lteq in Hmm. tauto. }
  split; [apply unit_interval_Qred, Hl |]. apply unit_interval_Qred.
  destruct (Qle_bool ((maxc + minc) / 2) (1 # 2)) eqn:E.
  - apply Qdiv_unit; Lqa.lra.
  - apply Qdiv_unit; Lqa.lra.
Qed.

End ColorsysFacts.

(** ** [suggest_accessible_color] *)
Module PaletteFacts.
Import Py Colorsys Stated ColorsysFacts PaletteExtractor.
Local Open Scope Q_scope.

Lemma int_of_float_channel (x : Q) :
  unit_interval x -> channel_ok (int_of_float (x * 255)).
Proof.
  intros [H0 H1]. unfold int_of_float, channel_ok.
  assert (Hlo : 0 <= x * 255) by Lqa.lra.
  assert (Hhi : x * 255 <= 255) by Lqa.lra.
  apply Qle_bool_iff in Hlo as Hb. rewrite Hb.
  split.
  - change 0%Z with (Qfloor 0). apply Qfloor_resp_le. exact Hlo.
  - change 255%Z with (Qfloor 255). apply Qfloor_resp_le. exact Hhi.
Qed.

Lemma to_rgb255_valid (c : Q * Q * Q) :
  (let '(r, g, b) := c in unit_interval r /\ unit_interval g /\ unit_interval b) ->
  valid_rgb (to_rgb255 c).
Proof.
  destruct c as [[r g] b]. intros (Hr & Hg & Hb). cbn.
  repeat split; apply int_of_float_channel; assumption.
Qed.

Lemma channel_unit (c : Z) : channel_ok c -> unit_interval (inject_Z c / 255).
Proof.
  intros [H0 H1]. apply Qdiv_unit.
  - change 0 with (inject_Z 0). rewrite <- Zle_Qle. exact H0.
  - change 255 with (inject_Z 255). rewrite <- Zle_Qle. exact H1.
  - reflexivity.
Qed.

(** Lightness and saturation read off a valid colour lie in [0, 1]. *)
Lemma hls_of_rgb_range (c : rgb) :
  valid_rgb c ->
  let '(_, l, s) := hls_of_rgb c in unit_interval l /\ unit_interval s.
Proof.
  destruct c as [[r g] b]. intros (Hr & Hg & Hb). unfold hls_of_rgb.
  apply rgb_to_hls_range; apply channel_unit; assumption.
Qed.

Lemma clamp_unit (x : Q) : unit_interval (Qred (Qmax 0.0 (Qmin 1.0 x))).
Proof.
  apply unit_interval_Qred. split.
  - eapply Qle_trans; [| apply Q.le_max_l]. discriminate.
  - apply Q.max_lub; [discriminate |].
    eapply Qle_trans; [apply Q.le_min_l | discriminate].
Qed.

Section Loop.
Variable fpow : Q -> Q -> Q.

(** Every turn of the loop keeps the colour valid and adds at most one
    adjustment per attempt left. *)
Lemma adjust_lightness_spec (attempts : nat) :
  forall (background_rgb : rgb) (target hue saturation lightness : Q)
         (current_rgb : rgb) (current_contrast : Q) (adjustments : nat),
    unit_interval saturation ->
    valid_rgb current_rgb ->
    let out := adjust_lightness fpow attempts background_rgb target hue
                 saturation lightness current_rgb current_contrast adjustments in
    valid_rgb (fst out) /\ (snd out <= adjustments + attempts)%nat.
Proof.
  induction attempts as [| attempts IH]; intros bg target hue sat light cur
    contrast n Hsat Hcur; cbn [adjust_lightness].
  - cbn. split; [assumption | lia].
  - destruct (Qge_bool contrast target).
    + cbn. split; [assumption | lia].
    + match goal with
      | |- context [adjust_lightness _ _ _ _ _ _ ?l ?c ?k ?m] =>
          specialize (IH bg target hue sat l c k m Hsat)
      end.
      cbn zeta in IH. destruct IH as [Hv Hk].
      * apply to_rgb255_valid.
        apply hls_to_rgb_range; [apply clamp_unit | exact Hsat].
      * split; [exact Hv | lia].
Qed.

(** The contrast ratio never divides by zero: with a power that is not
    negative, as [**] is on these operands, a luminance is not negative
    and both denominators are at least 0.05. *)
Hypothesis fpow_nonneg : forall x y : Q, 0 <= x -> 0 <= fpow x y.

Lemma gamma_correct_nonneg (c : Q) : 0 <= c -> 0 <= gamma_correct fpow c.
Proof.
  intros Hc. unfold gamma_correct. destruct (Qle_bool c 0.03928).
  - apply Qle_shift_div_l; [reflexivity | Lqa.lra].
  - apply fpow_nonneg. apply Qle_shift_div_l; [reflexivity | Lqa.lra].
Qed.

Lemma luminance_nonneg (c : rgb) : valid_rgb c -> 0 <= get_luminance fpow c.
Proof.
  assert (Hnorm : forall v : Z, channel_ok v -> 0 <= inject_Z v / 255.0).
  { intros v [Hv _]. apply Qle_shift_div_l; [reflexivity |].
    rewrite Qmult_0_l. change 0 with (inject_Z 0). now rewrite <- Zle_Qle. }
  destruct c as [[r g] b]. intros (Hr & Hg & Hb). unfold get_luminance.
  pose proof (gamma_correct_nonneg _ (Hnorm r Hr)) as Gr.
  pose proof (gamma_correct_nonneg _ (Hnorm g Hg)) as Gg.
  pose proof (gamma_correct_nonneg _ (Hnorm b Hb)) as Gb.
  Lqa.lra.
Qed.

Lemma contrast_denominator_pos (c : rgb) :
  valid_rgb c -> 0 < get_luminance fpow c + 0.05.
Proof. intros Hc. pose proof (luminance_nonneg c Hc). Lqa.lra. Qed.

End Loop.

(** C10.  Whatever the background and the target contrast, the search for
    an accessible colour starting from a colour with channels in 0..255
    makes at most 20 lightness adjustments and returns a colour with
    channels in 0..255. *)
Theorem suggest_accessible_color_bounded (fpow : Q -> Q -> Q)
    (original_rgb background_rgb : rgb) (target_contrast : Q) :
  valid_rgb original_rgb ->
  (snd (suggest_accessible_color_counted fpow original_rgb background_rgb
          target_contrast) <= 20)%nat
  /\ valid_rgb (suggest_accessible_color fpow original_rgb background_rgb
                  target_contrast).
Proof.
  intros Hvalid. unfold suggest_accessible_color, suggest_accessible_color_counted.
  pose proof (hls_of_rgb_range original_rgb Hvalid) as Hhls.
  destruct (hls_of_rgb original_rgb) as [[hue lightness] saturation].
  destruct Hhls as [_ Hsat].
  pose proof (adjust_lightness_spec fpow max_attempts background_rgb
                target_contrast hue saturation lightness original_rgb
                (get_contrast_ratio fpow original_rgb background_rgb) 0
                Hsat Hvalid) as [Hv Hk].
  split; [exact Hk | exact Hv].
Qed.

Lemma suggest_accessible_color_bounded_witness :
  (snd (suggest_accessible_color_counted Samples.square_pow (100, 100, 100)%Z
          (120, 120, 120)%Z 4.5) <= 20)%nat
  /\ valid_rgb (suggest_accessible_color Samples.square_pow (100, 100, 100)%Z
                  (120, 120, 120)%Z 4.5).
Proof.
  apply (suggest_accessible_color_bounded Samples.square_pow (100, 100, 100)%Z
           (120, 120, 120)%Z 4.5).
  cbn. unfold channel_ok. lia.
Defined.

End PaletteFacts.

(** ** [extract_palette] without pixels *)
Module ExtractPaletteFacts.
Import Py PaletteExtractor.
Local Open Scope Q_scope.

Lemma no_pixels (load_pixels : string -> option (list rgb)) (image_paths : list string) :
  Forall (fun img_path => load_pixels img_path = None
                          \/ load_pixels img_path = Some []) image_paths ->
  flat_map (fun img_path =>
              match load_pixels img_path with
              | Some pixels => pixels
              | None => []
              end) image_paths = [].
Proof.
  induction 1 as [| img_path rest Hhead _ IH]; [reflexivity |].
  cbn. rewrite IH. destruct Hhead as [-> | ->]; reflexivity.
Qed.

(** C9.  When no image yields a pixel (the list of images is empty, or
    every image fails to load or loads empty), [extract_palette] returns
    the palette #FFFFFF / #CCCCCC / #000000, no accessibility suggestion,
    and the harmony score 0.0 with an explanation that says which of the
    two cases occurred. *)
Theorem extract_palette_defaults (fpow : Q -> Q -> Q)
    (load_pixels : string -> option (list rgb))
    (dominant_colors : list rgb -> list rgb)
    (image_paths : list string) (color_palette_style mode : string) :
  Forall (fun img_path => load_pixels img_path = None
                          \/ load_pixels img_path = Some []) image_paths ->
  extract_palette fpow load_pixels dominant_colors image_paths
    color_palette_style mode
  = {| result_palette :=
         {| primary := "#FFFFFF"; secondary := "#CCCCCC"; accent := "#000000" |};
       accessibility_suggestions := [];
       color_harmony_score :=
         {| score := 0.0;
            explanation :=
              match image_paths with
              | [] => "No images provided for color analysis."
              | _ => "No valid pixels extracted for color analysis."
              end |} |}.
Proof.
  intros Hnone. unfold extract_palette.
  destruct image_paths as [| img_path rest]; [reflexivity |].
  rewrite (no_pixels load_pixels _ Hnone). reflexivity.
Qed.

Lemma extract_palette_defaults_witness :
  extract_palette Samples.square_pow (fun _ => None) (fun _ => [])
    ["assets/missing.png"] "vibrant" "light"
  = {| result_palette :=
         {| primary := "#FFFFFF"; secondary := "#CCCCCC"; accent := "#000000" |};
       accessibility_suggestions := [];
       color_harmony_score :=
         {| score := 0.0;
            explanation := "No valid pixels extracted for color analysis." |} |}.
Proof.
  apply (extract_palette_defaults Samples.square_pow (fun _ => None)
           (fun _ => []) ["assets/missing.png"] "vibrant" "light").
  repeat constructor.
Defined.

End ExtractPaletteFacts.

(** ** [suggest_fonts] *)
Module FontFacts.
Import Py Aggregation FontSuggester.
Local Open Scope Q_scope.

(** Entering the tie branch raises: the readability looked up with
    [next] is a number, and the code subscripts it. *)
Lemma tie_raises (f : Aggregation.t) (moods styles : gset string)
    (bh bb : option string) (best : string * string) (max_matches : Q)
    (p : pairing) :
  Qgt_bool (Qred (current_matches f moods styles bh bb p)) max_matches = false ->
  Qeq_bool (Qred (current_matches f moods styles bh bb p)) max_matches = true ->
  consider f moods styles bh bb (Some best, max_matches) p = Raise TypeError.
Proof.
  intros Hgt Heq. unfold consider. rewrite Hgt, Heq. reflexivity.
Qed.

(** C1.  [suggest_fonts([], {"designPrinciples": ["dense"]})] does not
    return: it raises [TypeError]. *)
Theorem suggest_fonts_raises (fpow : Q -> Q -> Q) :
  suggest_fonts fpow [] Samples.dense_principle = Raise TypeError.
Proof. vm_compute. reflexivity. Qed.

(** C2.  With the guidelines [{"designPrinciples": ["elegant"]}] and no
    image, "Playfair Display"/"Lora" and "Lora"/"Noto Serif" share the
    maximal score 1.69.  No brand font is given and the whitespace is 0.5,
    so the first of the two should be kept.  The loop reaches the second
    with the first as its best match, enters the tie-break branch and
    raises [TypeError]; so does [suggest_fonts]. *)
Theorem tie_break_raises (fpow : Q -> Q -> Q) :
  let f := aggregate [] in
  let tags : gset string := {[ "elegant" ]} in
  let score := current_matches f tags tags None None in
  let playfair := Samples.entry 1 in
  let lora := Samples.entry 17 in
  (heading playfair, body playfair) = ("Playfair Display", "Lora")
  /\ (heading lora, body lora) = ("Lora", "Noto Serif")
  /\ score playfair == 1.69 /\ score lora == 1.69
  /\ Forall (fun p => score p <= 1.69) FONT_PAIRINGS
  /\ best_match f tags tags None None (take 17 FONT_PAIRINGS) (None, -1)
     = Ok (Some ("Playfair Display", "Lora"), 1.69)
  /\ consider f tags tags None None (Some ("Playfair Display", "Lora"), 1.69) lora
     = Raise TypeError
  /\ best_match f tags tags None None FONT_PAIRINGS (None, -1) = Raise TypeError
  /\ suggest_fonts fpow [] Samples.elegant_principle = Raise TypeError.
Proof.
  cbv zeta. split; [reflexivity |]. split; [reflexivity |].
  split; [vm_compute; reflexivity |]. split; [vm_compute; reflexivity |].
  split; [| repeat split; vm_compute; reflexivity].
  unfold FONT_PAIRINGS.
  repeat (constructor; [apply Qle_bool_iff; vm_compute; reflexivity |]).
  constructor.
Qed.

(** With both brand fonts given, the scale is built from 16 px. *)
Lemma scale_with_brand_fonts (fpow : Q -> Q -> Q)
    (image_analysis_results : list Analysis.t)
    (brand_guidelines : BrandGuidelines.t) :
  given (BrandGuidelines.headingFont brand_guidelines)
  && given (BrandGuidelines.bodyFont brand_guidelines) = true ->
  exists r,
    suggest_fonts fpow image_analysis_results brand_guidelines = Ok r
    /\ font_size_scale r
       = let f := aggregate image_analysis_results in
         calculate_golden_ratio_font_scale fpow 16 (avg_whitespace f)
           (avg_aesthetic_score f) (avg_fractal_dimension f) (avg_entropy f).
Proof.
  intros Hgiven. unfold suggest_fonts. rewrite Hgiven.
  eexists. split; reflexivity.
Qed.

(** Otherwise, whenever [suggest_fonts] returns, the scale is built from
    the base size that step 3 derives from the aggregated features. *)
Lemma scale_without_brand_fonts (fpow : Q -> Q -> Q)
    (image_analysis_results : list Analysis.t)
    (brand_guidelines : BrandGuidelines.t) (r : suggestion) :
  given (BrandGuidelines.headingFont brand_guidelines)
  && given (BrandGuidelines.bodyFont brand_guidelines) = false ->
  suggest_fonts fpow image_analysis_results brand_guidelines = Ok r ->
  font_size_scale r
  = let f := aggregate image_analysis_results in
    calculate_golden_ratio_font_scale fpow (adjusted_base_font_size f)
      (avg_whitespace f) (avg_aesthetic_score f) (avg_fractal_dimension f)
      (avg_entropy f).
Proof.
  intros Hgiven. unfold suggest_fonts. rewrite Hgiven.
  destruct (best_match _ _ _ _ _ _ _) as [final | e]; cbn [bind]; [| discriminate].
  intros [= <-]. reflexivity.
Qed.

(** C6.  With both brand fonts given and no image, the aggregated
    whitespace is 0.5 and the aggregated aesthetic score 5, so the base
    size of the formula is 16 + 3 + 2 = 21 px; the returned scale is
    built from 16 px instead, while the guidelines without fonts get 21. *)
Theorem explicit_fonts_scale_base (fpow : Q -> Q -> Q) :
  adjusted_base_font_size (aggregate []) == 21
  /\ (exists r, suggest_fonts fpow [] Samples.georgia_verdana = Ok r
                /\ heading_font r = "Georgia" /\ body_font r = "Verdana"
                /\ scale_body (font_size_scale r) = 16%Z
                /\ font_size_scale r
                   = calculate_golden_ratio_font_scale fpow 16 0.5 5 1.5 4.0)
  /\ (exists r, suggest_fonts fpow [] BrandGuidelines.empty = Ok r
                /\ scale_body (font_size_scale r) = 21%Z).
Proof.
  split; [vm_compute; reflexivity |]. split.
  - eexists. split; [reflexivity |]. repeat split.
  - eexists. split; [vm_compute; reflexivity |]. reflexivity.
Qed.

End FontFacts.

(** ** [parse_brand_guidelines] *)
Module ParserFacts.
Import Py BrandGuidelineParser.

(** The parser never returns design principles. *)
Lemma parse_no_design_principles (at_path : file) :
  BrandGuidelines.designPrinciples (fst (parse_brand_guidelines at_path)) = None.
Proof.
  destruct at_path as [| | [| | | s | items | members]]; cbn; try reflexivity;
    match goal with
    | |- context [if ?c then _ else _] => destruct c; reflexivity
    end.
Qed.

(** A well-formed colour, font or layout preference of a guidelines
    object is kept as it is. *)
Lemma parse_keeps_valid_keys (guidelines : gmap string json) (s : string) :
  let parsed := fst (parse_brand_guidelines (Content (JObject guidelines))) in
  (guidelines !! "primaryColor" = Some (JString s) ->
   startswith "#" s = true ->
   String.length s = 7%nat \/ String.length s = 4%nat ->
   BrandGuidelines.primaryColor parsed = Some s)
  /\ (guidelines !! "headingFont" = Some (JString s) -> s <> "" ->
      BrandGuidelines.headingFont parsed = Some s)
  /\ (guidelines !! "bodyFont" = Some (JString s) -> s <> "" ->
      BrandGuidelines.bodyFont parsed = Some s)
  /\ (guidelines !! "layoutPreference" = Some (JString s) ->
      In s layout_preferences ->
      BrandGuidelines.layoutPreference parsed = Some s).
Proof.
  cbn. unfold checked. repeat split.
  - intros -> Hhash Hlen. cbn. rewrite Hhash.
    destruct Hlen as [-> | ->]; reflexivity.
  - intros -> Hs. cbn. destruct s; [congruence | reflexivity].
  - intros -> Hs. cbn. destruct s; [congruence | reflexivity].
  - intros -> Hin. cbn [valid_layout fst].
    assert (Hex : existsb (String.eqb s) layout_preferences = true).
    { apply existsb_exists. exists s. split; [exact Hin | apply String.eqb_refl]. }
    rewrite Hex. reflexivity.
Qed.

(** C5.  From [{"primaryColor": "#1A73E8", "designPrinciples": ["clean"],
    "invalidKey": 123}] the parser keeps the colour only: the design
    principles are dropped like the unknown key, and neither drop is
    reported. *)
Theorem parse_drops_design_principles :
  parse_brand_guidelines Samples.guidelines_file
  = ({| BrandGuidelines.primaryColor := Some "#1A73E8";
        BrandGuidelines.secondaryColor := None;
        BrandGuidelines.accentColor := None;
        BrandGuidelines.headingFont := None;
        BrandGuidelines.bodyFont := None;
        BrandGuidelines.layoutPreference := None;
        BrandGuidelines.designPrinciples := None |},
     [LoadedSuccessfully]).
Proof. vm_compute. reflexivity. Qed.

End ParserFacts.

(** ** Metrics of solid-colour images *)
Module UniformFacts.
Import Py ImageAnalyzer.

Lemma map_replicate {A B : Type} (f : A -> B) (n : nat) (x : A) :
  map f (replicate n x) = replicate n (f x).
Proof. induction n as [| n IH]; cbn; [reflexivity | now rewrite IH]. Qed.

Lemma sumZ_app (l1 l2 : list Z) : sumZ (l1 ++ l2) = (sumZ l1 + sumZ l2)%Z.
Proof. unfold sumZ. induction l1 as [| x l1 IH]; cbn; lia. Qed.

Lemma sumZ_replicate (n : nat) (x : Z) : sumZ (replicate n x) = (Z.of_nat n * x)%Z.
Proof. unfold sumZ. induction n as [| n IH]; cbn; lia. Qed.

Lemma concat_replicate_length {A : Type} (h : nat) (row : list A) :
  List.length (concat (replicate h row)) = (h * List.length row)%nat.
Proof.
  induction h as [| h IH]; cbn; [reflexivity |].
  rewrite length_app, IH. reflexivity.
Qed.

Lemma sumZ_concat_replicate (h : nat) (row : list Z) :
  sumZ (concat (replicate h row)) = (Z.of_nat h * sumZ row)%Z.
Proof.
  induction h as [| h IH]; cbn [replicate concat]; [cbn; lia |].
  rewrite sumZ_app, IH. lia.
Qed.

Lemma uniform_size (h w : nat) (g : Z) :
  List.length (concat (uniform h w g)) = (h * w)%nat.
Proof. unfold uniform. now rewrite concat_replicate_length, length_replicate. Qed.

Lemma uniform_total (h w : nat) (g : Z) :
  sumZ (concat (uniform h w g)) = (Z.of_nat h * (Z.of_nat w * g))%Z.
Proof. unfold uniform. now rewrite sumZ_concat_replicate, sumZ_replicate. Qed.

Lemma uniform_height (h w : nat) (g : Z) : height (uniform h w g) = h.
Proof. apply length_replicate. Qed.

Lemma uniform_width (h w : nat) (g : Z) :
  (0 < h)%nat -> width (uniform h w g) = w.
Proof.
  intros Hh. unfold width, uniform. destruct h as [| h]; [lia |].
  cbn. apply length_replicate.
Qed.

Lemma binarize_uniform (t : Z) (h w : nat) (g : Z) :
  binarize t (uniform h w g) = uniform h w (if (g <? t)%Z then 1%Z else 0%Z).
Proof. unfold binarize, uniform. now rewrite !map_replicate. Qed.

(** *** Fractal dimension *)

(** A solid image at or above the threshold has no foreground pixel. *)
Lemma fractal_dimension_light (h w : nat) (g : Z) :
  (128 <= g)%Z -> calculate_fractal_dimension (uniform h w g) 128 = 0%R.
Proof.
  intros Hg. unfold calculate_fractal_dimension.
  destruct (List.length (concat (uniform h w g)) =? 0)%nat; [reflexivity |].
  rewrite binarize_uniform.
  assert (Hlt : (g <? 128)%Z = false) by (apply Z.ltb_ge; exact Hg).
  rewrite Hlt, uniform_total.
  replace (Z.of_nat h * (Z.of_nat w * 0))%Z with 0%Z by lia. reflexivity.
Qed.

(** An image that fits in 4 x 4 pixels is padded to a side of at most 4
    and offers at most one box size: too few points for a fit. *)
Lemma fractal_dimension_small (img : gray_image) (threshold : Z) :
  (height img <= 4)%nat -> (width img <= 4)%nat ->
  calculate_fractal_dimension img threshold = 0%R.
Proof.
  intros Hh Hw. unfold calculate_fractal_dimension.
  destruct (List.length (concat img) =? 0)%nat; [reflexivity |].
  destruct (sumZ (concat (binarize threshold img)) =? 0)%Z; [reflexivity |].
  assert (Hsizes : (List.length (box_sizes (padded_side img)) <= 1)%nat).
  { unfold padded_side, box_sizes.
    rewrite length_map, length_rev, length_seq.
    assert (Hm : (Nat.max (height img) (width img) <= 4)%nat) by lia.
    destruct (Nat.max (height img) (width img)) as [| [| [| [| [| m]]]]];
      first [lia | vm_compute; lia]. }
  assert (Hvalid : (List.length (valid_boxes img threshold) <= 1)%nat).
  { unfold valid_boxes. etransitivity; [apply List.filter_length_le |].
    now rewrite length_map. }
  destruct (Nat.ltb_spec (List.length (valid_boxes img threshold)) 2) as [_ | Hge];
    [reflexivity | lia].
Qed.

(** *** Entropy *)

Lemma filter_replicate {A : Type} (f : A -> bool) (n : nat) (x : A) :
  List.filter f (replicate n x) = if f x then replicate n x else [].
Proof.
  induction n as [| n IH]; cbn; [destruct (f x); reflexivity |].
  rewrite IH. destruct (f x); reflexivity.
Qed.

Lemma concat_uniform (h w : nat) (g : Z) :
  concat (uniform h w g) = replicate (h * w) g.
Proof.
  unfold uniform. induction h as [| h IH]; cbn; [reflexivity |].
  rewrite IH. symmetry. apply replicate_add.
Qed.

Lemma count_if_uniform (f : Z -> bool) (h w : nat) (g : Z) :
  count_if f (uniform h w g) = if f g then Z.of_nat (h * w) else 0%Z.
Proof.
  unfold count_if. rewrite concat_uniform, filter_replicate.
  destruct (f g); [now rewrite length_replicate | reflexivity].
Qed.

(** The histogram of a solid image, restricted to the bins from [start]
    on: one bin holds every pixel. *)
Lemma histogram_bins (h w : nat) (g : Z) (len start : nat) :
  (0 < h * w)%nat ->
  let bins := map (fun i => count_if (Z.eqb (Z.of_nat i)) (uniform h w g))
                  (seq start len) in
  let hit := ((Z.of_nat start <=? g) && (g <? Z.of_nat (start + len)))%Z in
  sumZ bins = (if hit then Z.of_nat (h * w) else 0%Z)
  /\ List.filter (fun c => (0 <? c)%Z) bins = (if hit then [Z.of_nat (h * w)] else []).
Proof.
  intros Hpos. revert start. induction len as [| len IH]; intros start; cbn zeta.
  - cbn. replace (start + 0)%nat with start by lia.
    destruct (Z.leb_spec (Z.of_nat start) g), (Z.ltb_spec g (Z.of_nat start));
      cbn; try lia; split; reflexivity.
  - cbn [seq map sumZ fold_right List.filter].
    specialize (IH (S start)). cbn zeta in IH. destruct IH as [IHs IHf].
    fold (sumZ (map (fun i => count_if (Z.eqb (Z.of_nat i)) (uniform h w g))
                    (seq (S start) len))).
    rewrite IHs, count_if_uniform, IHf.
    replace (S start + len)%nat with (start + S len)%nat by lia.
    destruct (Z.eqb_spec (Z.of_nat start) g) as [Heq | Hne].
    + assert (H1 : ((Z.of_nat (S start) <=? g) && (g <? Z.of_nat (start + S len)))%Z = false).
      { apply andb_false_iff. left. apply Z.leb_gt. lia. }
      assert (H2 : ((Z.of_nat start <=? g) && (g <? Z.of_nat (start + S len)))%Z = true).
      { apply andb_true_iff. split; [apply Z.leb_le | apply Z.ltb_lt]; lia. }
      rewrite H1, H2.
      assert (H3 : (0 <? Z.of_nat (h * w))%Z = true) by (apply Z.ltb_lt; lia).
      rewrite H3. split; [lia | reflexivity].
    + assert (H1 : ((Z.of_nat (S start) <=? g) && (g <? Z.of_nat (start + S len)))%Z
                   = ((Z.of_nat start <=? g) && (g <? Z.of_nat (start + S len)))%Z).
      { f_equal. destruct (Z.leb_spec (Z.of_nat (S start)) g),
          (Z.leb_spec (Z.of_nat start) g); try reflexivity; lia. }
      rewrite H1. cbn. split; [destruct (_ && _); lia | reflexivity].
Qed.

Lemma entropy_uniform (h w : nat) (g : Z) :
  (0 < h)%nat -> (0 < w)%nat -> (0 <= g <= 255)%Z ->
  calculate_image_entropy (uniform h w g) = 0%R.
Proof.
  intros Hh Hw Hg. unfold calculate_image_entropy.
  rewrite uniform_size.
  assert (Hpos : (0 < h * w)%nat) by nia.
  destruct (Nat.eqb_spec (h * w) 0) as [Hz | _]; [lia |].
  destruct (histogram_bins h w g 256 0 Hpos) as [Hsum Hfilter].
  unfold histogram. cbn zeta in Hsum, Hfilter.
  assert (Hhit : ((Z.of_nat 0 <=? g) && (g <? Z.of_nat (0 + 256)))%Z = true).
  { apply andb_true_iff. split; [apply Z.leb_le | apply Z.ltb_lt]; cbn; lia. }
  rewrite Hhit in Hsum, Hfilter. rewrite Hsum, Hfilter.
  cbn [map sumR fold_right]. unfold log2R.
  assert (Hnz : IZR (Z.of_nat (h * w)) <> 0%R).
  { apply not_0_IZR. lia. }
  replace (IZR (Z.of_nat (h * w)) / IZR (Z.of_nat (h * w)))%R with 1%R
    by (field; exact Hnz).
  rewrite ln_1. Lra.lra.
Qed.

(** *** Visual balance *)

Lemma weighted_sum_from (n : nat) (v : Z) :
  forall k : nat,
    (2 * sumZ (imap (fun i x => x * Z.of_nat (k + i)) (replicate n v))
     = v * (Z.of_nat n * (2 * Z.of_nat k + Z.of_nat n - 1)))%Z.
Proof.
  induction n as [| n IH]; intros k; cbn [replicate imap].
  - cbn. lia.
  - change (sumZ (?x :: ?l)) with (x + sumZ l)%Z.
    rewrite (imap_ext _ (fun i x => (x * Z.of_nat (S k + i))%Z)).
    + specialize (IH (S k)). nia.
    + intros i x _. cbn. f_equal. lia.
Qed.

Lemma weighted_sum_replicate (n : nat) (v : Z) :
  (2 * weighted_sum (replicate n v) = v * (Z.of_nat n * (Z.of_nat n - 1)))%Z.
Proof.
  unfold weighted_sum. pose proof (weighted_sum_from n v 0) as H.
  cbn [Nat.add] in H. rewrite H. lia.
Qed.

Lemma Rmin_1_0 : Rmin 1 0 = 0%R.
Proof. unfold Rmin. destruct (Rle_dec 1 0); Lra.lra. Qed.

(** A solid image that is not black is perfectly balanced. *)
Lemma balance_uniform (h w : nat) (g : Z) :
  (0 < h)%nat -> (0 < w)%nat -> (0 < g)%Z ->
  calculate_visual_balance_score (uniform h w g) = 1%R.
Proof.
  intros Hh Hw Hg. unfold calculate_visual_balance_score.
  rewrite uniform_size, uniform_total, uniform_height, (uniform_width h w g Hh).
  destruct (Nat.eqb_spec (h * w) 0) as [Hz | _]; [nia |].
  destruct (Z.eqb_spec (Z.of_nat h * (Z.of_nat w * g)) 0) as [Hz | Hnz]; [nia |].
  unfold uniform. rewrite !map_replicate, !sumZ_replicate.
  pose proof (weighted_sum_replicate w g) as Hx.
  pose proof (weighted_sum_replicate h (Z.of_nat w * g)) as Hy.
  apply (f_equal IZR) in Hx, Hy.
  repeat (rewrite mult_IZR in Hx || rewrite minus_IZR in Hx).
  repeat (rewrite mult_IZR in Hy || rewrite minus_IZR in Hy).
  rewrite !mult_IZR.
  rewrite <- !INR_IZR_INZ in *.
  set (H := INR h) in *. set (W := INR w) in *. set (G := IZR g) in *.
  assert (HH : (0 < H)%R) by (apply (lt_0_INR h); lia).
  assert (HW : (0 < W)%R) by (apply (lt_0_INR w); lia).
  assert (HG : (0 < G)%R) by (apply (IZR_lt 0 g); lia).
  set (X := IZR (weighted_sum (replicate w g))) in *.
  set (Y := IZR (weighted_sum (replicate h (Z.of_nat w * g)))) in *.
  assert (Ex : (H * X / (H * (W * G)) = (W - 1) / 2)%R).
  { replace X with (G * (W * (W - 1)) / 2)%R by Lra.lra. field. Lra.lra. }
  assert (Ey : (Y / (H * (W * G)) = (H - 1) / 2)%R).
  { replace Y with (W * G * (H * (H - 1)) / 2)%R by Lra.lra. field. Lra.lra. }
  rewrite Ex, Ey.
  replace (((W - 1) / 2 - (W - 1) / 2) ^ 2 + ((H - 1) / 2 - (H - 1) / 2) ^ 2)%R
    with 0%R by ring.
  rewrite sqrt_0.
  destruct (Req_EM_T _ 0); [reflexivity |].
  unfold Rdiv at 1. rewrite Rmult_0_l, Rmin_1_0. ring.
Qed.

(** A black image has no luminance to balance. *)
Lemma balance_black (h w : nat) :
  calculate_visual_balance_score (uniform h w 0) = 0%R.
Proof.
  unfold calculate_visual_balance_score.
  destruct (List.length (concat (uniform h w 0)) =? 0)%nat; [reflexivity |].
  rewrite uniform_total.
  replace (Z.of_nat h * (Z.of_nat w * 0))%Z with 0%Z by lia. reflexivity.
Qed.

(** *** Symmetry *)

Lemma zip_with_replicate_same {A B : Type} (f : A -> A -> B) (n : nat) (x : A) :
  zip_with f (replicate n x) (replicate n x) = replicate n (f x x).
Proof. induction n as [| n IH]; cbn; [reflexivity | now rewrite IH]. Qed.

Lemma uint8_sub_diag (x : Z) : uint8_abs (uint8_sub x x) = 0%Z.
Proof. unfold uint8_abs, uint8_sub. now rewrite Z.sub_diag. Qed.

(** Two equal solid blocks differ nowhere. *)
Lemma sum_abs_diff_uniform (h w : nat) (g : Z) :
  sum_abs_diff (uniform h w g) (uniform h w g) = 0%Z.
Proof.
  unfold sum_abs_diff, uniform.
  rewrite zip_with_replicate_same, zip_with_replicate_same, uint8_sub_diag.
  rewrite sumZ_concat_replicate, sumZ_replicate. lia.
Qed.

Lemma score_one (n : Z) : (1 - inject_Z 0 / inject_Z n == 1)%Q.
Proof. unfold Qdiv. rewrite Qmult_0_l. reflexivity. Qed.

Lemma half_rest (n : nat) : (n - (n / 2 + n mod 2) = n / 2)%nat.
Proof. pose proof (Nat.div_mod_eq n 2). lia. Qed.

Lemma min_half (n : nat) : (Nat.min (n / 2) n = n / 2)%nat.
Proof. pose proof (Nat.div_mod_eq n 2). lia. Qed.

Lemma symmetry_horizontal_uniform (h w : nat) (g : Z) :
  (2 <= h)%nat -> (0 < w)%nat -> (symmetry_horizontal (uniform h w g) == 1)%Q.
Proof.
  intros Hh Hw. unfold symmetry_horizontal. cbv zeta.
  rewrite uniform_height, uniform_width by lia.
  assert (Htop : take (h / 2) (uniform h w g) = uniform (h / 2) w g).
  { unfold uniform. now rewrite take_replicate, min_half. }
  assert (Hbottom : reverse (drop (h / 2 + h mod 2) (uniform h w g))
                    = uniform (h / 2) w g).
  { unfold uniform. now rewrite drop_replicate, reverse_replicate, half_rest. }
  rewrite !Htop, !Hbottom, sum_abs_diff_uniform.
  change (List.length (uniform (h / 2) w g)) with (height (uniform (h / 2) w g)).
  rewrite uniform_height.
  assert (Hhalf : (0 < h / 2)%nat) by (apply Nat.div_str_pos; lia).
  unfold shape_eqb. cbn [fst snd]. rewrite !Nat.eqb_refl. cbn [andb].
  destruct (Nat.ltb_spec 0 (h / 2 * w)) as [_ | Hz]; [| nia].
  apply score_one.
Qed.

Lemma symmetry_vertical_uniform (h w : nat) (g : Z) :
  (0 < h)%nat -> (2 <= w)%nat -> (symmetry_vertical (uniform h w g) == 1)%Q.
Proof.
  intros Hh Hw. unfold symmetry_vertical. cbv zeta.
  rewrite uniform_height, uniform_width by lia.
  assert (Hleft : map (take (w / 2)) (uniform h w g) = uniform h (w / 2) g).
  { unfold uniform. now rewrite map_replicate, take_replicate, min_half. }
  assert (Hright : map reverse (map (drop (w / 2 + w mod 2)) (uniform h w g))
                   = uniform h (w / 2) g).
  { unfold uniform.
    now rewrite !map_replicate, drop_replicate, reverse_replicate, half_rest. }
  rewrite !Hleft, !Hright, sum_abs_diff_uniform, half_rest.
  assert (Hhalf : (0 < w / 2)%nat) by (apply Nat.div_str_pos; lia).
  unfold shape_eqb. cbn [fst snd]. rewrite !Nat.eqb_refl. cbn [andb].
  destruct (Nat.ltb_spec 0 (h * (w / 2))) as [_ | Hz]; [| nia].
  apply score_one.
Qed.

(** An image of a single row has no top half: the guard of the source
    sets the horizontal score to 0.0. *)
Lemma symmetry_horizontal_single_row (w : nat) (g : Z) :
  symmetry_horizontal (uniform 1 w g) = 0.0%Q.
Proof. unfold symmetry_horizontal. cbn. now rewrite andb_false_r. Qed.

(** *** The 8 x 8 black image *)

Lemma fractal_dimension_black_8x8 :
  calculate_fractal_dimension Samples.black_8x8 128 = 2%R.
Proof.
  unfold calculate_fractal_dimension.
  replace (valid_boxes Samples.black_8x8 128) with [(8%nat, 1%Z); (4%nat, 4%Z)]
    by (vm_compute; reflexivity).
  replace (List.length (concat Samples.black_8x8) =? 0)%nat with false
    by (vm_compute; reflexivity).
  replace (sumZ (concat (binarize 128 Samples.black_8x8)) =? 0)%Z with false
    by (vm_compute; reflexivity).
  cbn [List.length Nat.ltb Nat.leb map fst snd].
  unfold polyfit_slope. cbn [List.length zip_with sumR fold_right].
  replace (INR 8) with (2 ^ 3)%R by (cbn; Lra.lra).
  replace (INR 4) with (2 ^ 2)%R by (cbn; Lra.lra).
  replace (IZR 4) with (2 ^ 2)%R by (cbn; Lra.lra).
  replace (INR 2) with 2%R by (cbn; Lra.lra).
  assert (H2 : (0 < 2)%R) by Lra.lra.
  assert (Hinv : forall n : nat, ln (1 / 2 ^ n) = (- (INR n * ln 2))%R).
  { intros n. unfold Rdiv. rewrite Rmult_1_l, ln_Rinv by (apply pow_lt; exact H2).
    now rewrite ln_pow by exact H2. }
  rewrite !Hinv, ln_pow, ln_1 by exact H2.
  replace (INR 3) with 3%R by (cbn; Lra.lra).
  replace (INR 2) with 2%R by (cbn; Lra.lra).
  assert (Hln : (0 < ln 2)%R).
  { rewrite <- ln_1. apply ln_increasing; Lra.lra. }
  field. intros Hzero.
  assert (Hsq : (ln 2 * ln 2 = 0)%R) by (rewrite <- Hzero; ring).
  Lra.nra.
Qed.

End UniformFacts.

(** ** Solid-colour images: the claim and its correction *)
Module SolidImageFacts.
Import ImageAnalyzer UniformFacts Stated.

(** C3, as stated, fails on the 8 x 8 black image: every pixel is
    foreground, box counting finds 1 box of side 8 and 4 of side 4, and
    the fitted slope is 2, not 0 (and the balance score is 0, not 1). *)
Lemma solid_metrics_counterexample : ~ solid_metrics Samples.black_8x8.
Proof.
  intros (Hfractal & _). rewrite fractal_dimension_black_8x8 in Hfractal.
  Lra.lra.
Qed.

(** C3, amended.  A solid image with at least two rows and two columns
    that is not black, and whose intensity is at least 128 or whose sides
    are at most 4 pixels, has fractal dimension 0, entropy 0, visual
    balance 1 and both symmetry scores 1. *)
Theorem solid_metrics_light (h w : nat) (g : Z) :
  (2 <= h)%nat -> (2 <= w)%nat -> (1 <= g <= 255)%Z ->
  (128 <= g)%Z \/ (h <= 4 /\ w <= 4)%nat ->
  solid_metrics (uniform h w g).
Proof.
  intros Hh Hw Hg Hfractal. unfold solid_metrics. repeat split.
  - destruct Hfractal as [Hlight | [Hh4 Hw4]].
    + apply fractal_dimension_light. exact Hlight.
    + apply fractal_dimension_small.
      * now rewrite uniform_height.
      * rewrite uniform_width by lia. exact Hw4.
  - apply entropy_uniform; lia.
  - apply balance_uniform; lia.
  - apply symmetry_horizontal_uniform; lia.
  - apply symmetry_vertical_uniform; lia.
Qed.

Lemma solid_metrics_light_witness :
  ((2 <= 2)%nat /\ (2 <= 3)%nat /\ (1 <= 200 <= 255)%Z)
  /\ solid_metrics (uniform 2 3 200).
Proof.
  split; [lia |]. apply (solid_metrics_light 2 3 200); lia.
Defined.

End SolidImageFacts.

(** ** Symmetry: the source against the specification's formula *)
Module SymmetryFacts.
Import ImageAnalyzer.

(** Where the first operand is the larger one, the [uint8] difference is
    the absolute difference. *)
Lemma uint8_sub_exact (a b : Z) :
  (0 <= b <= a)%Z -> (a <= 255)%Z ->
  uint8_abs (uint8_sub a b) = Z.abs (a - b).
Proof.
  intros Hb Ha. unfold uint8_abs, uint8_sub.
  rewrite Z.mod_small by lia. lia.
Qed.

(** Where it is the smaller one, the difference wraps around. *)
Lemma uint8_sub_wraps (a b : Z) :
  (0 <= a < b)%Z -> (b <= 255)%Z ->
  uint8_abs (uint8_sub a b) = (256 - Z.abs (a - b))%Z.
Proof.
  intros Ha Hb. unfold uint8_abs, uint8_sub.
  replace (a - b)%Z with (a - b + 256 + (-1) * 256)%Z by lia.
  rewrite Z.mod_add by lia. rewrite Z.mod_small by lia. lia.
Qed.

(** Where no pixel of the first half is darker than its mirror image, the
    sum the source computes is the sum of the exact absolute differences. *)
Lemma sum_abs_diff_exact (a b : gray_image) :
  Forall2 (Forall2 (fun x y => (0 <= y <= x)%Z /\ (x <= 255)%Z)) a b ->
  sum_abs_diff a b = SymmetrySpec.sum_exact_abs_diff a b.
Proof.
  intros Hrows. unfold sum_abs_diff, SymmetrySpec.sum_exact_abs_diff.
  do 2 f_equal.
  induction Hrows as [| r1 r2 a b Hrow _ IH]; cbn; [reflexivity |].
  rewrite IH. f_equal.
  induction Hrow as [| x y r1 r2 [Hy Hx] _ IHrow]; cbn; [reflexivity |].
  rewrite IHrow, uint8_sub_exact by assumption. reflexivity.
Qed.

(** C4.  For the two-pixel column with intensities 0 over 1 the exact
    absolute difference is 1 and the specification's score 254/255; the
    source computes 0 - 1 in [uint8], gets 255, and scores 0.  The same
    happens to the vertical score of the row 0, 1. *)
Theorem symmetry_wraps_around :
  (SymmetrySpec.horizontal Samples.two_rows == 254 # 255)%Q
  /\ (symmetry_horizontal Samples.two_rows == 0)%Q
  /\ (SymmetrySpec.vertical Samples.two_columns == 254 # 255)%Q
  /\ (symmetry_vertical Samples.two_columns == 0)%Q.
Proof. repeat split; vm_compute; reflexivity. Qed.

End SymmetryFacts.

(** ** Mood tags *)
Module MoodFacts.
Import ImageAnalyzer.

Lemma Qgt_bool_true (x y : Q) : (y < x)%Q -> Py.Qgt_bool x y = true.
Proof. intros H. unfold Py.Qgt_bool. now apply ColorsysFacts.Qlt_bool_iff. Qed.

Lemma Qgt_bool_false (x y : Q) : (x <= y)%Q -> Py.Qgt_bool x y = false.
Proof. intros H. unfold Py.Qgt_bool. now apply ColorsysFacts.Qlt_bool_false. Qed.

(** Whenever the mean colour is blue-dominant, the saturation exceeds 0.7
    and the whitespace exceeds 70, the moods hold both "vibrant" and
    "minimalist". *)
Lemma vibrant_and_minimalist (r g b avg_saturation whitespace horizontal vertical : Q) :
  (r < b)%Q -> (g < b)%Q -> (0.7 < avg_saturation)%Q -> (70 < whitespace)%Q ->
  let moods := infer_moods (r, g, b) avg_saturation whitespace horizontal vertical in
  mem "vibrant" moods = true /\ mem "minimalist" moods = true.
Proof.
  intros Hr Hg Hsat Hws. unfold infer_moods.
  rewrite (Qgt_bool_false r b) by (apply Qlt_le_weak; exact Hr).
  rewrite andb_false_r.
  rewrite (Qgt_bool_true b r Hr), (Qgt_bool_true b g Hg). cbn [andb].
  rewrite (Qgt_bool_true avg_saturation 0.5) by Lqa.lra.
  rewrite (Qgt_bool_true avg_saturation 0.7 Hsat).
  rewrite (Qgt_bool_true whitespace 70 Hws).
  destruct (Py.Qgt_bool _ 0.8); [split; reflexivity |].
  destruct (Py.Qlt_bool _ 0.5); split; reflexivity.
Qed.

(** C7.  The solid dark-blue image is blue-dominant with saturation 1, so
    "vibrant" is appended twice; it is all whitespace, so "minimalist" is
    appended and one "vibrant" removed.  The other stays: the mood string
    of the analysis lists both tags, and so does the aggregated tag
    set. *)
Theorem vibrant_survives_minimalist (to_float : R -> Q) :
  let analysis := analyze_image to_float (Some Samples.dark_blue) in
  Analysis.whitespace_percentage analysis = Some 100%Q
  /\ infer_moods (0, 0, 100)%Q 1 100 1 1
     = ["vibrant"; "minimalist"; "balanced"; "professional"]
  /\ Analysis.mood_emotion analysis
     = Some "vibrant, minimalist, balanced, professional"
  /\ "minimalist" ∈ Aggregation.inferred_mood_tags [analysis]
  /\ "vibrant" ∈ Aggregation.inferred_mood_tags [analysis].
Proof.
  cbv zeta. split; [vm_compute; reflexivity |].
  split; [vm_compute; reflexivity |].
  split; [vm_compute; reflexivity |].
  split; compute_done.
Qed.

End MoodFacts.

(** ** Aggregated tag sets *)
Module TagFacts.
Import Py Aggregation Stated.

(** C8, as stated, fails: a mood string that joins "neutral" with another
    tag puts "neutral" into the aggregated set. *)
Lemma neutral_aggregated_counterexample :
  "neutral" ∈ inferred_mood_tags [Samples.neutral_muted].
Proof. compute_done. Qed.

(** [analyze_image] produces such strings: the solid mid-gray image has
    no dominant channel ("neutral") and no saturation ("muted"). *)
Lemma analyze_image_joins_neutral (to_float : R -> Q) :
  Analysis.mood_emotion
    (ImageAnalyzer.analyze_image to_float (Some Samples.mid_gray))
  = Some "neutral, muted, dense, balanced, professional".
Proof. vm_compute. reflexivity. Qed.

Lemma fold_tags (l : list string) :
  forall (acc : gset string) (tag : string),
    tag ∈ fold_left (fun acc t => acc ∪ {[ strip t ]}) l acc
    <-> tag ∈ acc \/ In tag (map strip l).
Proof.
  induction l as [| t l IH]; intros acc tag; cbn.
  - tauto.
  - rewrite IH, elem_of_union, elem_of_singleton. intuition congruence.
Qed.

Lemma add_tags_spec (field : option string) (sentinel : string)
    (acc : gset string) (tag : string) :
  tag ∈ add_tags field sentinel acc
  <-> tag ∈ acc \/ contributes sentinel field tag.
Proof.
  unfold add_tags, contributes, tags_of.
  destruct field as [s |].
  - destruct (truthy s) eqn:Ht; cbn [andb].
    + destruct (String.eqb_spec s sentinel) as [Heq | Hne]; cbn [negb].
      * split; [tauto |]. intros [H | (s' & [= <-] & _ & Hs & _)]; [exact H | congruence].
      * rewrite fold_tags. split.
        -- intros [H | H]; [tauto |]. right. exists s. repeat split; try assumption.
           intros ->. discriminate.
        -- intros [H | (s' & [= <-] & _ & _ & H)]; tauto.
    + split; [tauto |]. intros [H | (s' & [= <-] & Hs & _)]; [exact H |].
      destruct s; [congruence | discriminate].
  - split; [tauto |]. intros [H | (s & Hs & _)]; [exact H | discriminate].
Qed.

Lemma fold_records (field : Analysis.t -> option string) (sentinel : string)
    (records : list Analysis.t) :
  forall (acc : gset string) (tag : string),
    tag ∈ fold_left (fun tags a => add_tags (field a) sentinel tags) records acc
    <-> tag ∈ acc \/ exists a, In a records /\ contributes sentinel (field a) tag.
Proof.
  induction records as [| a records IH]; intros acc tag; cbn [fold_left].
  - split; [tauto |]. intros [H | (a & [] & _)]. exact H.
  - rewrite IH, add_tags_spec. split.
    + intros [[H | H] | (a' & Hin & H)]; [tauto | |].
      * right. exists a. split; [left; reflexivity | exact H].
      * right. exists a'. split; [right; exact Hin | exact H].
    + intros [H | (a' & [<- | Hin] & H)]; [tauto | tauto |].
      right. exists a'. tauto.
Qed.

(** C8, amended.  A tag is in the aggregated mood (typography) set exactly
    when some record's mood (typography) string is present, non-empty,
    different from the sentinel "neutral" ("unknown") as a whole, and
    lists the tag; a "neutral" inside a longer string is kept. *)
Theorem aggregated_tags (records : list Analysis.t) (tag : string) :
  (tag ∈ inferred_mood_tags records
   <-> exists a, In a records
                 /\ contributes "neutral" (Analysis.mood_emotion a) tag)
  /\ (tag ∈ inferred_typography_tags records
      <-> exists a, In a records
                    /\ contributes "unknown" (Analysis.typography_inference a) tag).
Proof.
  unfold inferred_mood_tags, inferred_typography_tags.
  split; rewrite fold_records; (split; [intros [H | H] | intros H]);
    [now apply not_elem_of_empty in H | exact H | right; exact H
    | now apply not_elem_of_empty in H | exact H | right; exact H].
Qed.

End TagFacts.

(** ** Rounding *)
Module RoundFacts.
Import Py ColorsysFacts.
Local Open Scope Q_scope.

Lemma round_cases (x : Q) :
  (round x = Qfloor x /\ x - inject_Z (Qfloor x) <= 1 # 2)
  \/ (round x = (Qfloor x + 1)%Z /\ 1 # 2 <= x - inject_Z (Qfloor x)).
Proof.
  unfold round. cbv zeta.
  destruct (Qlt_bool (x - inject_Z (Qfloor x)) (1 # 2)) eqn:Hlt.
  - left. apply Qlt_bool_iff in Hlt. split; [reflexivity | Lqa.lra].
  - apply Qlt_bool_false in Hlt.
    destruct (Qlt_bool (1 # 2) (x - inject_Z (Qfloor x))) eqn:Hgt.
    + right. split; [reflexivity | exact Hlt].
    + apply Qlt_bool_false in Hgt.
      destruct (Z.even (Qfloor x)); [left | right]; split;
        try reflexivity; assumption.
Qed.

(** An integer below [x] is below [round x]. *)
Lemma round_lower (k : Z) (x : Q) : inject_Z k <= x -> (k <= round x)%Z.
Proof.
  intros H. assert (Hk : (k <= Qfloor x)%Z).
  { rewrite <- (Qfloor_Z k). now apply Qfloor_resp_le. }
  destruct (round_cases x) as [[-> _] | [-> _]]; lia.
Qed.

(** An integer above [x] is above [round x]. *)
Lemma round_upper (k : Z) (x : Q) : x <= inject_Z k -> (round x <= k)%Z.
Proof.
  intros H. assert (Hk : (Qfloor x <= k)%Z).
  { rewrite <- (Qfloor_Z k). now apply Qfloor_resp_le. }
  destruct (round_cases x) as [[-> _] | [-> Hd]]; [lia |].
  assert (Hne : (Qfloor x < k)%Z); [| lia].
  apply Z.le_neq. split; [exact Hk |]. intros Heq. rewrite Heq in Hd. Lqa.lra.
Qed.

Lemma round_mono (x y : Q) : x <= y -> (round x <= round y)%Z.
Proof.
  intros Hxy. pose proof (Qfloor_resp_le _ _ Hxy) as Hf.
  destruct (Z.eq_dec (Qfloor x) (Qfloor y)) as [Heq | Hne].
  - unfold round. cbv zeta. rewrite <- Heq.
    set (f := Qfloor x) in *.
    destruct (Qlt_bool (x - inject_Z f) (1 # 2)) eqn:Hx1.
    + destruct (Qlt_bool (y - inject_Z f) (1 # 2));
        [| destruct (Qlt_bool (1 # 2) (y - inject_Z f));
           [| destruct (Z.even f)]]; lia.
    + apply Qlt_bool_false in Hx1.
      destruct (Qlt_bool (y - inject_Z f) (1 # 2)) eqn:Hy1.
      { apply Qlt_bool_iff in Hy1. Lqa.lra. }
      destruct (Qlt_bool (1 # 2) (x - inject_Z f)) eqn:Hx2.
      { apply Qlt_bool_iff in Hx2.
        destruct (Qlt_bool (1 # 2) (y - inject_Z f)) eqn:Hy2; [lia |].
        apply Qlt_bool_false in Hy2. Lqa.lra. }
      destruct (Qlt_bool (1 # 2) (y - inject_Z f));
        destruct (Z.even f); lia.
  - assert (Hlt : (Qfloor x + 1 <= Qfloor y)%Z) by lia.
    destruct (round_cases x) as [[-> _] | [-> _]];
      destruct (round_cases y) as [[-> _] | [-> _]]; lia.
Qed.

(** Less than half above an integer, [x] does not round beyond it. *)
Lemma round_upper_half (k : Z) (x : Q) :
  x < inject_Z k + (1 # 2) -> (round x <= k)%Z.
Proof.
  intros H. pose proof (Qfloor_le x) as Hfloor.
  assert (Hk : (Qfloor x <= k)%Z).
  { apply Z.lt_succ_r. rewrite Zlt_Qlt. unfold Z.succ.
    rewrite inject_Z_plus. change (inject_Z 1) with 1. Lqa.lra. }
  destruct (round_cases x) as [[-> _] | [-> Hd]]; [lia |].
  assert (Hne : (Qfloor x < k)%Z); [| lia].
  apply Z.le_neq. split; [exact Hk |]. intros Heq. rewrite Heq in Hd. Lqa.lra.
Qed.

(** [round(x, n)] stays between integers that bound [x]. *)
Lemma round_to_bounds (a b : Z) (x : Q) (n : nat) :
  inject_Z a <= x -> x <= inject_Z b ->
  inject_Z a <= round_to x n /\ round_to x n <= inject_Z b.
Proof.
  intros Ha Hb. unfold round_to. cbv zeta. rewrite Qred_correct.
  set (s := (10 ^ Z.of_nat n)%Z).
  assert (Hs : (0 < s)%Z) by (apply Z.pow_pos_nonneg; lia).
  assert (HsQ : 0 < inject_Z s).
  { change 0 with (inject_Z 0). now rewrite <- Zlt_Qlt. }
  split.
  - apply Qle_shift_div_l; [exact HsQ |].
    rewrite <- inject_Z_mult, <- Zle_Qle. apply round_lower.
    rewrite inject_Z_mult. Lqa.nra.
  - apply Qle_shift_div_r; [exact HsQ |].
    rewrite <- inject_Z_mult, <- Zle_Qle. apply round_upper.
    rewrite inject_Z_mult. Lqa.nra.
Qed.

End RoundFacts.

(** ** Hex strings *)
Module HexFacts.
Import Py PaletteExtractor HexColors.

Lemma two_hex_digits_all :
  forallb (fun k => two_hex_digits (Z.of_nat k)) (seq 0 256) = true.
Proof. vm_compute. reflexivity. Qed.

Lemma two_hex_digits_channel (n : Z) : channel_ok n -> two_hex_digits n = true.
Proof.
  intros [H0 H1]. pose proof two_hex_digits_all as H.
  rewrite forallb_forall in H. specialize (H (Z.to_nat n)).
  rewrite Z2Nat.id in H by lia. apply H, in_seq. lia.
Qed.

Lemma format_02x_channel (n : Z) :
  channel_ok n ->
  exists a b : ascii,
    format_02x n = String a (String b "")
    /\ Ascii.eqb a "#" = false
    /\ int16 (String a (String b "")) = Some n.
Proof.
  intros Hn. apply two_hex_digits_channel in Hn. unfold two_hex_digits in Hn.
  destruct (format_02x n) as [| a [| b [|]]]; try discriminate.
  exists a, b. apply andb_prop in Hn as [Ha Hn]. apply negb_true_iff in Ha.
  destruct (int16 (String a (String b ""))) as [m |]; [| discriminate].
  apply Z.eqb_eq in Hn. now subst.
Qed.

Lemma read_back (c : rgb) : valid_rgb c -> hex_to_rgb (rgb_to_hex c) = Some c.
Proof.
  destruct c as [[r g] b]. intros (Hr & Hg & Hb).
  destruct (format_02x_channel r Hr) as (r1 & r2 & Hfr & Hr1 & Hir).
  destruct (format_02x_channel g Hg) as (g1 & g2 & Hfg & _ & Hig).
  destruct (format_02x_channel b Hb) as (b1 & b2 & Hfb & _ & Hib).
  unfold rgb_to_hex, hex_to_rgb. rewrite Hfr, Hfg, Hfb. cbv zeta.
  replace (lstrip_hash _)
    with (String r1 (String r2 (String g1 (String g2 (String b1 (String b2 ""))))))
    by (unfold String.append; cbn; now rewrite Hr1).
  cbn [substring]. now rewrite Hir, Hig, Hib.
Qed.

(** X1.  [hex_to_rgb] undoes [rgb_to_hex]: a colour whose channels are
    within 0..255 is written as [#] and six hex digits, a string the
    brand-guideline parser accepts as a colour, and is read back
    unchanged. *)
Theorem hex_round_trip (c : rgb) :
  valid_rgb c ->
  hex_to_rgb (rgb_to_hex c) = Some c
  /\ BrandGuidelineParser.valid_color
       (BrandGuidelineParser.JString (rgb_to_hex c)) = Some (rgb_to_hex c).
Proof.
  intros Hc. split; [now apply read_back |].
  destruct c as [[r g] b]. destruct Hc as (Hr & Hg & Hb). unfold rgb_to_hex.
  destruct (format_02x_channel r Hr) as (r1 & r2 & -> & _).
  destruct (format_02x_channel g Hg) as (g1 & g2 & -> & _).
  destruct (format_02x_channel b Hb) as (b1 & b2 & -> & _).
  reflexivity.
Qed.

Lemma hex_round_trip_witness :
  hex_to_rgb (rgb_to_hex (26, 115, 232)%Z) = Some (26, 115, 232)%Z
  /\ BrandGuidelineParser.valid_color
       (BrandGuidelineParser.JString (rgb_to_hex (26, 115, 232)%Z))
     = Some (rgb_to_hex (26, 115, 232)%Z).
Proof.
  apply hex_round_trip. unfold valid_rgb, channel_ok. lia.
Defined.

Lemma substring_short (s : string) :
  (String.length s < 5)%nat -> substring 4 2 s = "".
Proof.
  destruct s as [| c1 [| c2 [| c3 [| c4 [| c5 s]]]]]; cbn; try reflexivity; lia.
Qed.

Lemma lstrip_hash_length (s : string) :
  (String.length (lstrip_hash s) <= String.length s)%nat.
Proof.
  induction s as [| c s IH]; cbn; [lia |].
  destruct (Ascii.eqb c "#"); cbn; lia.
Qed.

(** X2.  The three-digit form [#RGB], which the brand-guideline parser
    accepts as a colour, cannot be read by [hex_to_rgb]: on every string
    the parser accepts that is four characters long, the conversion
    raises. *)
Theorem short_hex_raises (v : BrandGuidelineParser.json) (s : string) :
  BrandGuidelineParser.valid_color v = Some s ->
  String.length s = 4%nat ->
  hex_to_rgb s = None.
Proof.
  intros Hvalid Hlen. destruct v; try discriminate. cbn in Hvalid.
  destruct (startswith "#" s0) eqn:Hprefix; [| discriminate].
  destruct (_ || _); [| discriminate]. injection Hvalid as ->.
  unfold hex_to_rgb. cbv zeta.
  assert (Hshort : (String.length (lstrip_hash s) < 5)%nat).
  { pose proof (lstrip_hash_length s). lia. }
  rewrite (substring_short _ Hshort).
  destruct (int16 (substring 0 2 _)); [| reflexivity].
  destruct (int16 (substring 2 2 _)); reflexivity.
Qed.

Lemma short_hex_raises_witness :
  BrandGuidelineParser.valid_color (BrandGuidelineParser.JString "#ABC")
  = Some "#ABC"
  /\ hex_to_rgb "#ABC" = None.
Proof.
  split; [reflexivity |].
  apply (short_hex_raises (BrandGuidelineParser.JString "#ABC"));
    reflexivity.
Defined.

End HexFacts.

(** ** Luminance and contrast *)
Module ContrastFacts.
Import Py Colorsys Stated ColorsysFacts PaletteExtractor.
Local Open Scope Q_scope.

(** X3.  The contrast ratio does not depend on the order of its two
    colours. *)
Theorem contrast_ratio_symmetric (fpow : Q -> Q -> Q) (rgb1 rgb2 : rgb) :
  get_contrast_ratio fpow rgb1 rgb2 == get_contrast_ratio fpow rgb2 rgb1.
Proof.
  unfold get_contrast_ratio. cbv zeta. unfold Qgt_bool.
  set (L1 := get_luminance fpow rgb1). set (L2 := get_luminance fpow rgb2).
  destruct (Qlt_bool L1 L2) eqn:H12; destruct (Qlt_bool L2 L1) eqn:H21;
    try reflexivity.
  - apply Qlt_bool_iff in H12, H21. Lqa.lra.
  - apply Qlt_bool_false in H12, H21.
    assert (Heq : L1 == L2) by Lqa.lra. rewrite Heq. reflexivity.
Qed.

Section Range.
Variable fpow : Q -> Q -> Q.

(** The power at the exponent of the gamma correction keeps the unit
    interval, as [x ** 2.4] does. *)
Hypothesis fpow_unit : forall x : Q, unit_interval x -> unit_interval (fpow x 2.4).

Lemma gamma_correct_unit (c : Q) : unit_interval c -> unit_interval (gamma_correct fpow c).
Proof.
  intros [H0 H1]. unfold gamma_correct.
  destruct (Qle_bool c 0.03928) eqn:Hc.
  - apply Qle_bool_iff in Hc. split.
    + apply Qle_shift_div_l; [reflexivity | Lqa.lra].
    + apply Qle_shift_div_r; [reflexivity | Lqa.lra].
  - apply fpow_unit. split.
    + apply Qle_shift_div_l; [reflexivity | Lqa.lra].
    + apply Qle_shift_div_r; [reflexivity | Lqa.lra].
Qed.

Lemma channel_norm_unit (v : Z) : channel_ok v -> unit_interval (inject_Z v / 255.0).
Proof.
  intros [H0 H1]. split.
  - apply Qle_shift_div_l; [reflexivity |]. rewrite Qmult_0_l.
    change 0 with (inject_Z 0). now rewrite <- Zle_Qle.
  - apply Qle_shift_div_r; [reflexivity |].
    apply Qle_trans with (inject_Z 255); [now rewrite <- Zle_Qle | discriminate].
Qed.

Lemma luminance_unit (c : rgb) : valid_rgb c -> unit_interval (get_luminance fpow c).
Proof.
  destruct c as [[r g] b]. intros (Hr & Hg & Hb). unfold get_luminance.
  destruct (gamma_correct_unit _ (channel_norm_unit r Hr)) as [Hr0 Hr1].
  destruct (gamma_correct_unit _ (channel_norm_unit g Hg)) as [Hg0 Hg1].
  destruct (gamma_correct_unit _ (channel_norm_unit b Hb)) as [Hb0 Hb1].
  split; Lqa.lra.
Qed.

Lemma ratio_range (hi lo : Q) :
  0 <= lo -> lo <= hi -> hi <= 1 ->
  1 <= (hi + 0.05) / (lo + 0.05) /\ (hi + 0.05) / (lo + 0.05) <= 21.
Proof.
  intros H0 Hle H1. split.
  - apply Qle_shift_div_l; Lqa.lra.
  - apply Qle_shift_div_r; Lqa.lra.
Qed.

Lemma contrast_ratio_range_aux (rgb1 rgb2 : rgb) :
  valid_rgb rgb1 -> valid_rgb rgb2 ->
  1 <= get_contrast_ratio fpow rgb1 rgb2
  /\ get_contrast_ratio fpow rgb1 rgb2 <= 21.
Proof.
  intros H1 H2. unfold get_contrast_ratio. cbv zeta.
  destruct (luminance_unit rgb1 H1) as [Ha0 Ha1].
  destruct (luminance_unit rgb2 H2) as [Hb0 Hb1].
  unfold Qgt_bool.
  destruct (Qlt_bool (get_luminance fpow rgb1) (get_luminance fpow rgb2)) eqn:Hlt.
  - apply Qlt_bool_iff in Hlt. apply ratio_range; Lqa.lra.
  - apply Qlt_bool_false in Hlt. apply ratio_range; Lqa.lra.
Qed.

End Range.

(** X4.  For colours with channels in 0..255 the contrast ratio lies
    between 1 and 21, as the docstring of [get_contrast_ratio] says,
    and a colour has ratio 1 against itself. *)
Theorem contrast_ratio_range (fpow : Q -> Q -> Q) (rgb1 rgb2 : rgb) :
  (forall x : Q, unit_interval x -> unit_interval (fpow x 2.4)) ->
  valid_rgb rgb1 -> valid_rgb rgb2 ->
  1 <= get_contrast_ratio fpow rgb1 rgb2
  /\ get_contrast_ratio fpow rgb1 rgb2 <= 21
  /\ get_contrast_ratio fpow rgb1 rgb1 == 1.
Proof.
  intros Hpow H1 H2.
  destruct (contrast_ratio_range_aux fpow Hpow rgb1 rgb2 H1 H2) as [Hlo Hhi].
  repeat split; try assumption.
  unfold get_contrast_ratio. cbv zeta.
  destruct (luminance_unit fpow Hpow rgb1 H1) as [Ha0 _].
  destruct (Qgt_bool _ _); field; Lqa.lra.
Qed.

Lemma contrast_ratio_range_witness :
  1 <= get_contrast_ratio Samples.square_pow (0, 0, 0)%Z (255, 255, 255)%Z
  /\ get_contrast_ratio Samples.square_pow (0, 0, 0)%Z (255, 255, 255)%Z <= 21
  /\ get_contrast_ratio Samples.square_pow (0, 0, 0)%Z (0, 0, 0)%Z == 1.
Proof.
  apply contrast_ratio_range.
  - intros x [H0 H1]. unfold Samples.square_pow. split; Lqa.nra.
  - unfold valid_rgb, channel_ok. lia.
  - unfold valid_rgb, channel_ok. lia.
Defined.

(** Through the loop of [suggest_accessible_color] the contrast carried
    along is that of the current colour; leaving it before the attempts
    are used up means the target is met. *)
Lemma adjust_lightness_meets (fpow : Q -> Q -> Q) (attempts : nat) :
  forall (background_rgb : rgb) (target hue saturation lightness : Q)
         (current_rgb : rgb) (current_contrast : Q) (adjustments : nat),
    current_contrast = get_contrast_ratio fpow current_rgb background_rgb ->
    let r := adjust_lightness fpow attempts background_rgb target hue
               saturation lightness current_rgb current_contrast adjustments in
    (snd r < adjustments + attempts)%nat ->
    target <= get_contrast_ratio fpow (fst r) background_rgb.
Proof.
  induction attempts as [| attempts IH]; intros bg target hue sat light cur
    contrast n Hcontrast; cbn [adjust_lightness].
  - cbn. lia.
  - unfold Qge_bool. destruct (Qle_bool target contrast) eqn:Hmet.
    + cbn. intros _. apply Qle_bool_iff in Hmet. now rewrite <- Hcontrast.
    + cbv zeta. intros Hlt. apply IH; [reflexivity | lia].
Qed.

(** X5.  When [suggest_accessible_color] stops before its twenty
    attempts are used up, the colour it returns meets the target
    contrast against the background. *)
Theorem suggest_accessible_color_meets (fpow : Q -> Q -> Q)
    (original_rgb background_rgb : rgb) (target_contrast : Q) :
  (snd (suggest_accessible_color_counted fpow original_rgb background_rgb
          target_contrast) < 20)%nat ->
  target_contrast
  <= get_contrast_ratio fpow
       (suggest_accessible_color fpow original_rgb background_rgb target_contrast)
       background_rgb.
Proof.
  unfold suggest_accessible_color, suggest_accessible_color_counted.
  destruct (hls_of_rgb original_rgb) as [[hue lightness] saturation].
  intros Hlt. apply adjust_lightness_meets; [reflexivity | exact Hlt].
Qed.

Lemma suggest_accessible_color_meets_witness :
  (snd (suggest_accessible_color_counted Samples.square_pow (119, 119, 119)%Z
          (120, 120, 120)%Z 1.05) < 20)%nat
  /\ 1.05 <= get_contrast_ratio Samples.square_pow
               (suggest_accessible_color Samples.square_pow (119, 119, 119)%Z
                  (120, 120, 120)%Z 1.05)
               (120, 120, 120)%Z.
Proof.
  split; [vm_compute; lia |].
  apply suggest_accessible_color_meets. vm_compute. lia.
Defined.

End ContrastFacts.

(** ** The harmony score and the palette *)
Module HarmonyFacts.
Import Py Colorsys Stated ColorsysFacts PaletteFacts RoundFacts PaletteExtractor HexColors.
Local Open Scope Q_scope.

(** X6.  The harmony score of any list of colours lies between 0 and
    10. *)
Theorem harmony_score_range (colors_rgb : list rgb) :
  0 <= score (calculate_color_harmony_score colors_rgb)
  /\ score (calculate_color_harmony_score colors_rgb) <= 10.
Proof.
  destruct colors_rgb as [| c1 [| c2 rest]].
  - cbn. split; discriminate.
  - cbn. split; discriminate.
  - unfold calculate_color_harmony_score. cbv zeta.
    match goal with
    | |- context [Qmin 10.0 ?x] => set (harmony_score := x)
    end.
    assert (Hfinal : 0 <= Qmax 0.0 (Qmin 10.0 harmony_score)
                     /\ Qmax 0.0 (Qmin 10.0 harmony_score) <= 10).
    { split.
      - eapply Qle_trans; [| apply Q.le_max_l]. discriminate.
      - apply Q.max_lub; [discriminate |].
        eapply Qle_trans; [apply Q.le_min_l | discriminate]. }
    destruct Hfinal as [Hlo Hhi].
    match goal with
    | |- context [match ?m with [] => _ | _ :: _ => _ end] => destruct m
    end; cbn [score]; apply (round_to_bounds 0 10).
    + eapply Qle_trans; [exact Hlo | apply Q.le_max_l].
    + apply Q.max_lub; [exact Hhi | discriminate].
    + exact Hlo.
    + exact Hhi.
Qed.

End HarmonyFacts.

(** ** The colours of an extracted palette *)
Module PaletteShape.
Import Py Colorsys Stated ColorsysFacts PaletteFacts PaletteExtractor HexColors.
Local Open Scope Q_scope.

Lemma hex_to_rgb_of_hex (c : rgb) :
  valid_rgb c -> hex_to_rgb (rgb_to_hex c) = Some c /\ valid_rgb c.
Proof. intros Hc. split; [now apply HexFacts.read_back | exact Hc]. Qed.

Lemma map_rgb_valid (f : Z -> Z) (c : rgb) :
  (forall x : Z, channel_ok x -> channel_ok (f x)) ->
  valid_rgb c -> valid_rgb (map_rgb f c).
Proof.
  intros Hf. destruct c as [[r g] b]. intros (Hr & Hg & Hb).
  cbn. auto.
Qed.

Lemma muted_valid (c : rgb) : valid_rgb c -> valid_rgb (muted c).
Proof.
  intros Hc. unfold muted. pose proof (hls_of_rgb_range c Hc) as Hrange.
  destruct (hls_of_rgb c) as [[h l] s]. destruct Hrange as [Hl [Hs0 Hs1]].
  apply to_rgb255_valid. apply hls_to_rgb_range; [exact Hl |].
  split; [apply Q.le_max_l |]. apply Q.max_lub; Lqa.lra.
Qed.

Lemma pastel_valid (c : rgb) : valid_rgb c -> valid_rgb (pastel c).
Proof.
  intros Hc. unfold pastel. pose proof (hls_of_rgb_range c Hc) as Hrange.
  destruct (hls_of_rgb c) as [[h l] s]. destruct Hrange as [[Hl0 Hl1] [Hs0 Hs1]].
  apply to_rgb255_valid. apply hls_to_rgb_range.
  - split; [apply Q.min_glb; Lqa.lra | apply Q.le_min_l].
  - split; Lqa.lra.
Qed.

Lemma nth_valid (k : nat) (ranked : list rgb) (fallback : rgb) :
  Forall valid_rgb ranked -> valid_rgb fallback -> valid_rgb (nth k ranked fallback).
Proof.
  intros Hall Hd. destruct (nth_in_or_default k ranked fallback) as [Hin | ->];
    [| exact Hd].
  rewrite List.Forall_forall in Hall. now apply Hall.
Qed.

(** X7.  As long as the clustering hands back colours with channels in
    0..255, the three entries of the palette [extract_palette] returns are
    hex strings that [hex_to_rgb] reads back as colours with channels in
    0..255, whatever the images, the style and the mode. *)
Theorem extract_palette_colors (fpow : Q -> Q -> Q)
    (load_pixels : string -> option (list rgb))
    (dominant_colors : list rgb -> list rgb)
    (image_paths : list string) (color_palette_style mode : string) :
  (forall pixels, Forall valid_rgb (dominant_colors pixels)) ->
  let extracted :=
    result_palette (extract_palette fpow load_pixels dominant_colors
                      image_paths color_palette_style mode) in
  exists primary_rgb secondary_rgb accent_rgb,
    hex_to_rgb (primary extracted) = Some primary_rgb
    /\ hex_to_rgb (secondary extracted) = Some secondary_rgb
    /\ hex_to_rgb (accent extracted) = Some accent_rgb
    /\ valid_rgb primary_rgb /\ valid_rgb secondary_rgb /\ valid_rgb accent_rgb.
Proof.
  intros Hdom. cbv zeta.
  assert (Hdefault :
    exists primary_rgb secondary_rgb accent_rgb,
      hex_to_rgb (primary default_palette) = Some primary_rgb
      /\ hex_to_rgb (secondary default_palette) = Some secondary_rgb
      /\ hex_to_rgb (accent default_palette) = Some accent_rgb
      /\ valid_rgb primary_rgb /\ valid_rgb secondary_rgb /\ valid_rgb accent_rgb).
  { exists (255, 255, 255)%Z, (204, 204, 204)%Z, (0, 0, 0)%Z.
    repeat split; try reflexivity; lia. }
  unfold extract_palette. destruct image_paths as [| path paths]; [exact Hdefault |].
  destruct (flat_map _ (path :: paths)) as [| pixel pixels]; [exact Hdefault |].
  cbv zeta. set (ranked := dominant_colors (pixel :: pixels)).
  assert (Hranked : Forall valid_rgb ranked) by apply Hdom.
  assert (H0 : valid_rgb (nth 0 ranked (255, 255, 255)%Z)).
  { apply nth_valid; [exact Hranked | unfold valid_rgb, channel_ok; lia]. }
  assert (H1 : valid_rgb (nth 1 ranked (204, 204, 204)%Z)).
  { apply nth_valid; [exact Hranked | unfold valid_rgb, channel_ok; lia]. }
  assert (H2 : valid_rgb (nth 2 ranked (0, 0, 0)%Z)).
  { apply nth_valid; [exact Hranked | unfold valid_rgb, channel_ok; lia]. }
  set (c0 := nth 0 ranked _) in *. set (c1 := nth 1 ranked _) in *.
  set (c2 := nth 2 ranked _) in *.
  assert (Hshift : forall (f : Z -> Z) (c : rgb),
            (forall x : Z, channel_ok x -> channel_ok (f x)) ->
            valid_rgb c -> valid_rgb (map_rgb f c)) by apply map_rgb_valid.
  assert (Hmode :
    forall k, (0 <= k <= 50)%Z ->
      (forall x, channel_ok x -> channel_ok (Z.max 0 (x - k)))
      /\ (forall x, channel_ok x -> channel_ok (Z.min 255 (x + k)))).
  { intros k Hk. unfold channel_ok. split; intros x Hx; lia. }
  destruct (String.eqb mode "dark");
    destruct (String.eqb color_palette_style "muted");
    try destruct (String.eqb color_palette_style "pastel");
    cbn [result_palette primary secondary accent];
    eexists _, _, _;
    (split; [apply hex_to_rgb_of_hex | split; [apply hex_to_rgb_of_hex
       | split; [apply hex_to_rgb_of_hex |]]]);
    repeat first
      [ split
      | apply muted_valid
      | apply pastel_valid
      | apply Hshift; [apply Hmode; lia |]
      | assumption ].
Qed.

Lemma extract_palette_colors_witness :
  let extracted :=
    result_palette (extract_palette Samples.square_pow
                      (fun _ => Some [(10, 20, 30)%Z])
                      (fun _ => [(10, 20, 30)%Z; (200, 100, 50)%Z])
                      ["assets/logo.png"] "pastel" "dark") in
  exists primary_rgb secondary_rgb accent_rgb,
    hex_to_rgb (primary extracted) = Some primary_rgb
    /\ hex_to_rgb (secondary extracted) = Some secondary_rgb
    /\ hex_to_rgb (accent extracted) = Some accent_rgb
    /\ valid_rgb primary_rgb /\ valid_rgb secondary_rgb /\ valid_rgb accent_rgb.
Proof.
  apply extract_palette_colors.
  intros pixels. repeat constructor; unfold channel_ok; lia.
Defined.

End PaletteShape.

(** ** Whitespace and symmetry of an image *)
Module ImageFacts.
Import Py ImageAnalyzer Arrays Stated ColorsysFacts RoundFacts.

Lemma filter_disjoint_length {A : Type} (f g : A -> bool) (l : list A) :
  (forall x, f x = true -> g x = false) ->
  (List.length (List.filter f l) + List.length (List.filter g l)
   <= List.length l)%nat.
Proof.
  intros Hfg. induction l as [| x l IH]; cbn; [lia |].
  destruct (f x) eqn:Hf.
  - rewrite (Hfg x Hf). cbn. lia.
  - destruct (g x); cbn; lia.
Qed.

(** X8.  The whitespace percentage of an image with at least one pixel
    lies between 0 and 100: no pixel counts as both light and dark. *)
Theorem whitespace_percentage_range (img_array_gray : gray_image) :
  concat img_array_gray <> [] ->
  (0 <= whitespace_percentage_of img_array_gray)%Q
  /\ (whitespace_percentage_of img_array_gray <= 100)%Q.
Proof.
  intros Hpixels. unfold whitespace_percentage_of, count_if. cbv zeta.
  set (pixels := concat img_array_gray) in *.
  pose proof (filter_disjoint_length (fun v : Z => (240 <? v)%Z) (fun v : Z => (v <? 15)%Z) pixels)
    as Hcount.
  assert (Hlen : (0 < List.length pixels)%nat).
  { destruct pixels; [congruence | cbn; lia]. }
  set (light := List.length (List.filter (fun v : Z => (240 <? v)%Z) pixels)) in *.
  set (dark := List.length (List.filter (fun v : Z => (v <? 15)%Z) pixels)) in *.
  assert (Hle : (light + dark <= List.length pixels)%nat).
  { apply Hcount. intros x Hx. apply Z.ltb_lt in Hx. apply Z.ltb_ge. lia. }
  assert (Hunit : unit_interval
            (inject_Z (Z.of_nat light + Z.of_nat dark)
             / inject_Z (Z.of_nat (List.length pixels)))).
  { apply Qdiv_unit.
    - change 0%Q with (inject_Z 0). rewrite <- Zle_Qle. lia.
    - rewrite <- Zle_Qle. lia.
    - change 0%Q with (inject_Z 0). rewrite <- Zlt_Qlt. lia. }
  destruct Hunit as [H0 H1].
  apply (round_to_bounds 0 100).
  - change (inject_Z 0) with 0%Q. Lqa.nra.
  - change (inject_Z 100) with 100%Q. Lqa.nra.
Qed.

Lemma whitespace_percentage_range_witness :
  (0 <= whitespace_percentage_of Examples.four_pixels)%Q
  /\ (whitespace_percentage_of Examples.four_pixels <= 100)%Q.
Proof. apply whitespace_percentage_range. discriminate. Defined.

Lemma row_diff_bounds (r1 r2 : list Z) :
  0 <= sumZ (zip_with (fun x y => uint8_abs (uint8_sub x y)) r1 r2)
  <= 255 * Z.of_nat (List.length r1).
Proof.
  revert r2. induction r1 as [| x r1 IH]; intros [| y r2];
    cbn [zip_with List.length]; unfold sumZ; cbn [fold_right]; try lia.
  specialize (IH r2). unfold sumZ in IH. unfold uint8_abs, uint8_sub in *.
  pose proof (Z.mod_pos_bound (x - y) 256). lia.
Qed.

Lemma sum_abs_diff_bounds (w : nat) (a b : gray_image) :
  Forall (fun row => (List.length row <= w)%nat) a ->
  0 <= sum_abs_diff a b <= 255 * Z.of_nat (List.length a * w).
Proof.
  unfold sum_abs_diff. intros Ha. revert b.
  induction Ha as [| r1 a Hr1 Ha IH]; intros [| r2 b];
    cbn [zip_with concat List.length]; try (cbn; lia).
  rewrite UniformFacts.sumZ_app. specialize (IH b).
  pose proof (row_diff_bounds r1 r2). nia.
Qed.

Lemma score_unit (diff : Z) (matched : nat) :
  (0 < matched)%nat -> 0 <= diff <= 255 * Z.of_nat matched ->
  unit_interval (1 - inject_Z diff / inject_Z (255 * Z.of_nat matched)).
Proof.
  intros Hm [H0 H1].
  assert (Hunit : unit_interval (inject_Z diff / inject_Z (255 * Z.of_nat matched))).
  { apply Qdiv_unit.
    - change 0%Q with (inject_Z 0). now rewrite <- Zle_Qle.
    - now rewrite <- Zle_Qle.
    - change 0%Q with (inject_Z 0). rewrite <- Zlt_Qlt. lia. }
  destruct Hunit. split; Lqa.lra.
Qed.

Lemma zero_unit : unit_interval 0.0%Q.
Proof. split; discriminate. Qed.

Lemma symmetry_horizontal_unit (img : gray_image) :
  rectangular img -> unit_interval (symmetry_horizontal img).
Proof.
  intros Hrect. unfold symmetry_horizontal. cbv zeta.
  destruct (shape_eqb _ _ && _) eqn:Hshape; [| apply zero_unit].
  apply andb_prop in Hshape as [_ Hsize]. apply Nat.ltb_lt in Hsize.
  apply score_unit; [exact Hsize |].
  apply sum_abs_diff_bounds. apply Forall_take.
  eapply List.Forall_impl; [| exact Hrect]. cbn. intros row ->. lia.
Qed.

Lemma symmetry_vertical_unit (img : gray_image) :
  unit_interval (symmetry_vertical img).
Proof.
  unfold symmetry_vertical. cbv zeta.
  destruct (shape_eqb _ _ && _) eqn:Hshape; [| apply zero_unit].
  apply andb_prop in Hshape as [_ Hsize]. apply Nat.ltb_lt in Hsize.
  pose proof (sum_abs_diff_bounds (width img / 2)
                (map (firstn (width img / 2)) img)
                (map reverse (map (skipn (width img / 2 + width img mod 2)) img)))
    as Hbounds.
  rewrite length_map in Hbounds.
  apply score_unit; [exact Hsize |]. apply Hbounds.
  apply List.Forall_map. apply List.Forall_forall. intros row _.
  rewrite length_firstn. lia.
Qed.

(** X9.  Both symmetry scores of a rectangular array lie between 0 and
    1, whatever the intensities. *)
Theorem symmetry_scores_range (img_array_gray : gray_image) :
  rectangular img_array_gray ->
  unit_interval (symmetry_horizontal img_array_gray)
  /\ unit_interval (symmetry_vertical img_array_gray).
Proof.
  intros Hrect. split;
    [now apply symmetry_horizontal_unit | apply symmetry_vertical_unit].
Qed.

Lemma symmetry_scores_range_witness :
  unit_interval (symmetry_horizontal Examples.four_pixels)
  /\ unit_interval (symmetry_vertical Examples.four_pixels).
Proof.
  apply symmetry_scores_range. repeat constructor.
Defined.

Lemma palindrome_halves {A : Type} (l : list A) :
  firstn (List.length l / 2) l
  = reverse (skipn (List.length l / 2 + List.length l mod 2) l)
  <-> reverse l = l.
Proof.
  pose proof (Nat.div_mod_eq (List.length l) 2) as Hn.
  pose proof (Nat.mod_upper_bound (List.length l) 2) as Hm.
  set (n := List.length l) in *.
  set (k := (n / 2)%nat) in *. set (m := (n mod 2)%nat) in *.
  assert (Hlen : List.length (skipn (k + m) l) = k).
  { rewrite length_drop. fold n. lia. }
  split; intros H; apply list_eq; intros i.
  - destruct (decide (i < n)%nat) as [Hi | Hi].
    + rewrite reverse_lookup by exact Hi. fold n.
      destruct (decide (i < k)%nat) as [Hik | Hik].
      * pose proof (f_equal (fun x => x !! i) H) as Hi'. cbn beta in Hi'.
        rewrite lookup_take_lt in Hi' by lia.
        rewrite reverse_lookup in Hi' by lia.
        rewrite Hlen, lookup_drop in Hi'. rewrite Hi'. f_equal. lia.
      * destruct (decide (k + m <= i)%nat) as [Hhigh | Hmid].
        -- pose proof (f_equal (fun x => x !! (n - S i)%nat) H) as Hj.
           cbn beta in Hj. rewrite lookup_take_lt in Hj by lia.
           rewrite reverse_lookup in Hj by lia.
           rewrite Hlen, lookup_drop in Hj. rewrite Hj. f_equal. lia.
        -- f_equal. lia.
    + rewrite !lookup_ge_None_2; [reflexivity | fold n; lia |].
      rewrite length_reverse. fold n. lia.
  - destruct (decide (i < k)%nat) as [Hik | Hik].
    + rewrite lookup_take_lt by lia. rewrite reverse_lookup by lia.
      rewrite Hlen, lookup_drop.
      pose proof (f_equal (fun x => x !! i) H) as Hi. cbn beta in Hi.
      rewrite reverse_lookup in Hi by (fold n; lia). fold n in Hi.
      rewrite <- Hi. f_equal. lia.
    + rewrite lookup_take_ge by lia. symmetry. apply lookup_ge_None_2.
      rewrite length_reverse. lia.
Qed.

Lemma row_diff_zero (r1 r2 : list Z) :
  List.length r1 = List.length r2 ->
  Forall (fun v => 0 <= v <= 255) r1 -> Forall (fun v => 0 <= v <= 255) r2 ->
  sumZ (zip_with (fun x y => uint8_abs (uint8_sub x y)) r1 r2) = 0 ->
  r1 = r2.
Proof.
  revert r2. induction r1 as [| x r1 IH]; intros [| y r2] Hlen H1 H2;
    try discriminate; [reflexivity |].
  inversion H1 as [| ? ? Hx H1']; subst. inversion H2 as [| ? ? Hy H2']; subst.
  cbn [zip_with]. unfold sumZ. cbn [fold_right]. intros Hsum.
  pose proof (row_diff_bounds r1 r2) as Hrest. unfold sumZ in Hrest.
  unfold uint8_abs, uint8_sub in *.
  pose proof (Z.mod_pos_bound (x - y) 256).
  pose proof (Z.div_mod (x - y) 256).
  f_equal; [lia |]. apply IH; try assumption; [| unfold sumZ; lia].
  cbn in Hlen. lia.
Qed.

Lemma image_diff_zero (w : nat) (a b : gray_image) :
  List.length a = List.length b ->
  Forall (fun row => List.length row = w) a ->
  Forall (fun row => List.length row = w) b ->
  uint8_array a -> uint8_array b ->
  sum_abs_diff a b = 0 -> a = b.
Proof.
  unfold sum_abs_diff, uint8_array. revert b.
  induction a as [| r1 a IH]; intros [| r2 b] Hlen Ha Hb Hua Hub;
    try discriminate; [reflexivity |].
  apply List.Forall_cons_iff in Ha as [Hr1 Ha].
  apply List.Forall_cons_iff in Hb as [Hr2 Hb].
  apply List.Forall_cons_iff in Hua as [Hu1 Hua].
  apply List.Forall_cons_iff in Hub as [Hu2 Hub].
  cbn [zip_with concat]. rewrite UniformFacts.sumZ_app. intros Hsum.
  pose proof (row_diff_bounds r1 r2) as Hrow.
  pose proof (sum_abs_diff_bounds w a b) as Hrest.
  unfold sum_abs_diff in Hrest.
  assert (Hrest' : 0 <= sumZ (concat (zip_with
            (zip_with (fun x y => uint8_abs (uint8_sub x y))) a b))).
  { apply Hrest. eapply List.Forall_impl; [| exact Ha].
    cbn beta. intros row Hrow'. lia. }
  f_equal.
  - apply row_diff_zero; try assumption; [congruence | lia].
  - apply IH; try assumption; [cbn in Hlen; lia | lia].
Qed.

Lemma sum_abs_diff_diag (a : gray_image) : sum_abs_diff a a = 0.
Proof.
  unfold sum_abs_diff. induction a as [| row a IH]; [reflexivity |].
  cbn [zip_with concat]. rewrite UniformFacts.sumZ_app, IH.
  assert (Hrow : sumZ (zip_with (fun x y => uint8_abs (uint8_sub x y)) row row) = 0).
  { clear. induction row as [| x row IH]; [reflexivity |].
    cbn [zip_with]. unfold sumZ in *. cbn [fold_right]. rewrite IH.
    unfold uint8_abs, uint8_sub. now rewrite Z.sub_diag. }
  lia.
Qed.

Lemma score_one_iff (diff max_diff : Z) :
  0 < max_diff ->
  (1 - inject_Z diff / inject_Z max_diff == 1)%Q <-> diff = 0.
Proof.
  intros Hmax.
  assert (Hpos : ~ (inject_Z max_diff == 0)%Q).
  { change 0%Q with (inject_Z 0). rewrite inject_Z_injective. lia. }
  split.
  - intros H.
    assert (Hzero : (inject_Z diff / inject_Z max_diff == 0)%Q) by Lqa.lra.
    apply inject_Z_injective. change (inject_Z 0) with 0%Q.
    rewrite <- (Qmult_div_r (inject_Z diff) (inject_Z max_diff) Hpos).
    rewrite Hzero. ring.
  - intros ->. unfold Qdiv. rewrite Qmult_0_l. reflexivity.
Qed.

Lemma map_eq_Forall {A B : Type} (f g : A -> B) (l : list A) :
  map f l = map g l <-> Forall (fun x => f x = g x) l.
Proof.
  induction l as [| x l IH]; cbn.
  - split; [constructor | reflexivity].
  - split.
    + intros H. injection H as Hx Hl. constructor; [exact Hx | now apply IH].
    + intros H. inversion H; subst. f_equal; [assumption | now apply IH].
Qed.

Lemma Forall_iff_each {A : Type} (P Q : A -> Prop) (l : list A) :
  Forall (fun x => P x <-> Q x) l -> Forall P l <-> Forall Q l.
Proof.
  induction 1 as [| x l Hx _ IH]; [split; constructor |].
  rewrite !List.Forall_cons_iff. tauto.
Qed.

Lemma symmetry_horizontal_mirror (img : gray_image) :
  rectangular img -> uint8_array img ->
  (2 <= height img)%nat -> (1 <= width img)%nat ->
  (symmetry_horizontal img == 1)%Q <-> flipud img = img.
Proof.
  intros Hrect Hu8 Hh Hw. unfold flipud.
  rewrite <- palindrome_halves. unfold symmetry_horizontal. cbv zeta.
  unfold height in *.
  pose proof (Nat.div_mod_eq (List.length img) 2) as Hn.
  pose proof (Nat.mod_upper_bound (List.length img) 2) as Hm.
  set (k := (List.length img / 2)%nat) in *.
  set (m := (List.length img mod 2)%nat) in *.
  set (top := firstn k img).
  set (flipped := reverse (skipn (k + m) img)).
  assert (Htop : List.length top = k).
  { unfold top. rewrite length_firstn. lia. }
  assert (Hflipped : List.length flipped = k).
  { unfold flipped. rewrite length_reverse, length_drop. lia. }
  rewrite Htop, Hflipped. unfold shape_eqb. cbn [fst snd].
  rewrite !Nat.eqb_refl.
  assert (Hsize : (0 < k * width img)%nat) by nia.
  apply Nat.ltb_lt in Hsize as Hsize'. rewrite Hsize'. cbn [andb].
  rewrite score_one_iff by lia.
  split.
  - apply (image_diff_zero (width img)).
    + congruence.
    + apply Forall_take. exact Hrect.
    + apply Forall_reverse, Forall_drop. exact Hrect.
    + apply Forall_take. exact Hu8.
    + apply Forall_reverse, Forall_drop. exact Hu8.
  - intros ->. apply sum_abs_diff_diag.
Qed.

Lemma symmetry_vertical_mirror (img : gray_image) :
  rectangular img -> uint8_array img ->
  (1 <= height img)%nat -> (2 <= width img)%nat ->
  (symmetry_vertical img == 1)%Q <-> fliplr img = img.
Proof.
  intros Hrect Hu8 Hh Hw. unfold fliplr, symmetry_vertical. cbv zeta.
  pose proof (Nat.div_mod_eq (width img) 2) as Hn.
  pose proof (Nat.mod_upper_bound (width img) 2) as Hm.
  set (k := (width img / 2)%nat) in *.
  set (m := (width img mod 2)%nat) in *.
  replace (width img - (k + m))%nat with k by lia.
  unfold shape_eqb. cbn [fst snd]. rewrite !Nat.eqb_refl.
  assert (Hsize : (0 < height img * k)%nat) by nia.
  apply Nat.ltb_lt in Hsize as Hsize'. rewrite Hsize'. cbn [andb].
  rewrite score_one_iff by lia. rewrite map_map.
  assert (Hrows : Forall (fun row => firstn k row = reverse (skipn (k + m) row)
                                     <-> reverse row = row) img).
  { eapply List.Forall_impl; [| exact Hrect]. cbn beta. intros row Hrow.
    rewrite <- palindrome_halves. rewrite Hrow. reflexivity. }
  assert (Hiff : map (firstn k) img = map (fun row => reverse (skipn (k + m) row)) img
                 <-> map reverse img = img).
  { rewrite <- (map_id img) at 4. rewrite !map_eq_Forall.
    apply Forall_iff_each. exact Hrows. }
  rewrite <- Hiff. split.
  - apply (image_diff_zero k).
    + now rewrite !length_map.
    + apply List.Forall_map. eapply List.Forall_impl; [| exact Hrect].
      cbn beta. intros row Hrow. rewrite length_firstn. lia.
    + apply List.Forall_map. eapply List.Forall_impl; [| exact Hrect].
      cbn beta. intros row Hrow. rewrite length_reverse, length_drop. lia.
    + apply List.Forall_map. eapply List.Forall_impl; [| exact Hu8].
      cbn beta. intros row Hrow. now apply Forall_take.
    + apply List.Forall_map. eapply List.Forall_impl; [| exact Hu8].
      cbn beta. intros row Hrow. now apply Forall_reverse, Forall_drop.
  - intros ->. apply sum_abs_diff_diag.
Qed.

(** X10.  On a rectangular [uint8] array with at least two rows and two
    columns, the horizontal symmetry score is 1 exactly when the image
    equals its top-to-bottom flip, and the vertical score is 1 exactly
    when it equals its left-to-right flip. *)
Theorem symmetry_one_iff_mirror (img_array_gray : gray_image) :
  rectangular img_array_gray -> uint8_array img_array_gray ->
  (2 <= height img_array_gray)%nat -> (2 <= width img_array_gray)%nat ->
  ((symmetry_horizontal img_array_gray == 1)%Q
   <-> flipud img_array_gray = img_array_gray)
  /\ ((symmetry_vertical img_array_gray == 1)%Q
      <-> fliplr img_array_gray = img_array_gray).
Proof.
  intros Hrect Hu8 Hh Hw. split.
  - apply symmetry_horizontal_mirror; try assumption. lia.
  - apply symmetry_vertical_mirror; try assumption. lia.
Qed.

Lemma symmetry_one_iff_mirror_witness :
  ((symmetry_horizontal Examples.four_pixels == 1)%Q
   <-> flipud Examples.four_pixels = Examples.four_pixels)
  /\ ((symmetry_vertical Examples.four_pixels == 1)%Q
      <-> fliplr Examples.four_pixels = Examples.four_pixels).
Proof.
  apply symmetry_one_iff_mirror.
  - repeat constructor.
  - repeat constructor; lia.
  - cbn. lia.
  - cbn. lia.
Defined.

End ImageFacts.

(** ** The typography and mood rules *)
Module RuleFacts.
Import Py ImageAnalyzer ColorsysFacts.

(** X11.  The typography styles inferred for an image never list both
    "bold" and "light": the whitespace cannot be above 70 and below 30 at
    once, so the branch that resolves that conflict is never taken. *)
Theorem typography_bold_or_light
    (whitespace_percentage horizontal vertical avg_saturation : Q) :
  let styles := infer_typography_styles whitespace_percentage horizontal
                  vertical avg_saturation in
  mem "bold" styles && mem "light" styles = false.
Proof.
  cbv zeta. unfold infer_typography_styles. cbv zeta. unfold Qgt_bool.
  destruct (Qlt_bool 70 whitespace_percentage) eqn:Hlight;
    destruct (Qlt_bool whitespace_percentage 30) eqn:Hbold.
  - apply Qlt_bool_iff in Hlight, Hbold. Lqa.lra.
  - destruct (Qlt_bool 0.85 horizontal && Qlt_bool 0.85 vertical);
      [| destruct (Qlt_bool horizontal 0.5 || Qlt_bool vertical 0.5)];
      (destruct (Qlt_bool 0.6 avg_saturation);
       [| destruct (Qlt_bool avg_saturation 0.2)]); reflexivity.
  - destruct (Qlt_bool 0.85 horizontal && Qlt_bool 0.85 vertical);
      [| destruct (Qlt_bool horizontal 0.5 || Qlt_bool vertical 0.5)];
      (destruct (Qlt_bool 0.6 avg_saturation);
       [| destruct (Qlt_bool avg_saturation 0.2)]); reflexivity.
  - destruct (Qlt_bool 0.85 horizontal && Qlt_bool 0.85 vertical);
      [| destruct (Qlt_bool horizontal 0.5 || Qlt_bool vertical 0.5)];
      (destruct (Qlt_bool 0.6 avg_saturation);
       [| destruct (Qlt_bool avg_saturation 0.2)]); reflexivity.
Qed.

(** X12.  The mood rules always leave at least one mood, so the mood
    string of an analysed image is the joined list and the fallback
    "neutral" of the join is never used. *)
Theorem moods_never_empty (avg_rgb : Q * Q * Q)
    (avg_saturation whitespace_percentage horizontal vertical : Q) :
  let moods := infer_moods avg_rgb avg_saturation whitespace_percentage
                 horizontal vertical in
  moods <> []
  /\ join_tags moods "neutral" = join ", " (distinct moods).
Proof.
  cbv zeta.
  assert (Hne : infer_moods avg_rgb avg_saturation whitespace_percentage
                  horizontal vertical <> []).
  { destruct avg_rgb as [[r g] b]. unfold infer_moods. cbv zeta.
    destruct (Qgt_bool r g && Qgt_bool r b);
      [| destruct (Qgt_bool b r && Qgt_bool b g)];
      destruct (Qgt_bool avg_saturation 0.5);
      (destruct (Qgt_bool avg_saturation 0.7);
       [| destruct (Qlt_bool avg_saturation 0.3)]);
      (destruct (Qgt_bool whitespace_percentage 70);
       [| destruct (Qlt_bool whitespace_percentage 30)]);
      (destruct (Qgt_bool ((horizontal + vertical) / 2) 0.8);
       [| destruct (Qlt_bool ((horizontal + vertical) / 2) 0.5)]);
      discriminate. }
  split; [exact Hne |]. unfold join_tags.
  destruct (infer_moods _ _ _ _ _); [congruence | reflexivity].
Qed.

End RuleFacts.

(** ** Aggregation over a batch *)
Module AggregateFacts.
Import Py Aggregation Ranges Stated ColorsysFacts.
Local Open Scope Q_scope.

Lemma add_tags_initial_mood (tags : gset string) :
  add_tags (Analysis.mood_emotion Analysis.initial) "neutral" tags = tags.
Proof. reflexivity. Qed.

Lemma add_tags_initial_typography (tags : gset string) :
  add_tags (Analysis.typography_inference Analysis.initial) "unknown" tags = tags.
Proof. reflexivity. Qed.

Lemma present_skips {A : Type} (field : Analysis.t -> option A)
    (before after : list Analysis.t) (a : Analysis.t) :
  field a = None ->
  present field (before ++ a :: after) = present field (before ++ after).
Proof.
  intros Hnone. unfold present. rewrite !omap_app. cbn. now rewrite Hnone.
Qed.

(** X13.  A record of an image that could not be analysed (the initial
    record [analyze_image] returns on failure) changes nothing in the
    aggregate of a batch, wherever it stands: the averages and the tag
    sets are those of the other records. *)
Theorem failed_analysis_ignored (before after : list Analysis.t) :
  aggregate (before ++ Analysis.initial :: after) = aggregate (before ++ after).
Proof.
  unfold aggregate, inferred_mood_tags, inferred_typography_tags.
  rewrite !(present_skips _ before after Analysis.initial) by reflexivity.
  rewrite !fold_left_app. cbn [fold_left].
  rewrite add_tags_initial_mood, add_tags_initial_typography. reflexivity.
Qed.

Lemma fold_sum_bounds (lo hi : Q) (l : list Q) :
  Forall (fun x => lo <= x /\ x <= hi) l ->
  forall acc : Q,
    acc + inject_Z (Z.of_nat (List.length l)) * lo <= fold_left Qplus l acc
    /\ fold_left Qplus l acc <= acc + inject_Z (Z.of_nat (List.length l)) * hi.
Proof.
  induction 1 as [| x l [Hlo Hhi] _ IH]; intros acc.
  - cbn [fold_left List.length]. change (inject_Z (Z.of_nat 0)) with 0.
    split; Lqa.lra.
  - cbn [fold_left List.length]. destruct (IH (acc + x)) as [IHlo IHhi].
    rewrite Nat2Z.inj_succ. unfold Z.succ. rewrite inject_Z_plus.
    change (inject_Z 1) with 1. split; Lqa.lra.
Qed.

(** The mean of a non-empty list lies between any bounds of its
    elements. *)
Lemma mean_bounds (lo hi : Q) (l : list Q) :
  l <> [] -> Forall (fun x => lo <= x /\ x <= hi) l ->
  lo <= mean l /\ mean l <= hi.
Proof.
  intros Hne Hall. unfold mean, sum. rewrite Qred_correct.
  destruct (fold_sum_bounds lo hi l Hall 0) as [Hlo Hhi].
  assert (Hn : 0 < inject_Z (Z.of_nat (List.length l))).
  { change 0 with (inject_Z 0). rewrite <- Zlt_Qlt.
    destruct l; [congruence | cbn; lia]. }
  split.
  - apply Qle_shift_div_l; [exact Hn | Lqa.lra].
  - apply Qle_shift_div_r; [exact Hn | Lqa.lra].
Qed.

Lemma Forall_present {A : Type} (field : Analysis.t -> option A)
    (P : A -> Prop) (records : list Analysis.t) :
  Forall (fun a => forall x, field a = Some x -> P x) records ->
  Forall P (present field records).
Proof.
  unfold present. induction 1 as [| a records Ha _ IH]; cbn; [constructor |].
  destruct (field a) as [x |] eqn:Hfield; [| exact IH].
  constructor; [now apply Ha | exact IH].
Qed.

Lemma avg_whitespace_unit (records : list Analysis.t) :
  Forall in_range records -> unit_interval (avg_whitespace (aggregate records)).
Proof.
  intros Hall. unfold aggregate. cbn [avg_whitespace].
  assert (Hws : Forall (fun w => 0 <= w /\ w <= 100)
                  (present Analysis.whitespace_percentage records)).
  { apply Forall_present. eapply List.Forall_impl; [| exact Hall].
    intros a [Hw _]. exact Hw. }
  destruct (present Analysis.whitespace_percentage records) as [| w ws] eqn:Heq.
  - split; discriminate.
  - apply unit_interval_Qred.
    destruct (mean_bounds 0 100 (w :: ws)) as [Hlo Hhi];
      [discriminate | exact Hws |].
    split.
    + apply Qle_shift_div_l; [reflexivity | Lqa.lra].
    + apply Qle_shift_div_r; [reflexivity | Lqa.lra].
Qed.

Lemma avg_aesthetic_range (records : list Analysis.t) :
  Forall in_range records ->
  0 <= avg_aesthetic_score (aggregate records)
  /\ avg_aesthetic_score (aggregate records) <= 10.
Proof.
  intros Hall. unfold aggregate. cbn [avg_aesthetic_score]. unfold mean_or.
  assert (Hs : Forall (fun s => 0 <= s /\ s <= 10) (present score_field records)).
  { apply Forall_present. eapply List.Forall_impl; [| exact Hall].
    intros a [_ Hs]. exact Hs. }
  destruct (present score_field records) as [| s ss] eqn:Heq.
  - split; discriminate.
  - apply mean_bounds; [discriminate | exact Hs].
Qed.

(** X14.  If every whitespace percentage in the batch is within 0..100
    and every aesthetic score within 0..10, the aggregated whitespace is
    a fraction between 0 and 1 and the aggregated aesthetic score is
    within 0..10; this holds for the empty batch and for batches whose
    records lack the fields. *)
Theorem aggregate_ranges (image_analysis_results : list Analysis.t) :
  Forall in_range image_analysis_results ->
  let f := aggregate image_analysis_results in
  unit_interval (avg_whitespace f)
  /\ 0 <= avg_aesthetic_score f /\ avg_aesthetic_score f <= 10.
Proof.
  intros Hall. cbv zeta. split;
    [now apply avg_whitespace_unit | now apply avg_aesthetic_range].
Qed.

Lemma analysed_in_range : in_range Examples.analysed.
Proof.
  split; intros x Hx; injection Hx as <-; split; discriminate.
Defined.

Lemma initial_in_range : in_range Analysis.initial.
Proof. split; intros x Hx; discriminate. Defined.

Lemma aggregate_ranges_witness :
  let f := aggregate [Examples.analysed; Analysis.initial] in
  unit_interval (avg_whitespace f)
  /\ 0 <= avg_aesthetic_score f /\ avg_aesthetic_score f <= 10.
Proof.
  apply aggregate_ranges.
  apply List.Forall_cons; [apply analysed_in_range |].
  apply List.Forall_cons; [apply initial_in_range | apply List.Forall_nil].
Defined.

End AggregateFacts.

(** ** Font sizes and the search for a pairing *)
Module FontScaleFacts.
Import Py Aggregation Ranges Stated ColorsysFacts RoundFacts AggregateFacts FontSuggester.
Local Open Scope Q_scope.

Lemma adjusted_base_font_size_range (f : Aggregation.t) :
  unit_interval (avg_whitespace f) ->
  0 <= avg_aesthetic_score f -> avg_aesthetic_score f <= 10 ->
  15.2 <= adjusted_base_font_size f /\ adjusted_base_font_size f <= 27.3.
Proof.
  intros [Hw0 Hw1] Ha0 Ha1. unfold adjusted_base_font_size. cbv zeta.
  assert (Hdiv : avg_aesthetic_score f / 10 * 4 == avg_aesthetic_score f * (2 # 5))
    by (field; discriminate).
  destruct (_ || _); [| destruct (_ || _)]; rewrite Hdiv; split; Lqa.lra.
Qed.

Lemma at_least_1_range (lo hi : Z) (x : Q) :
  (1 <= lo)%Z -> inject_Z lo <= x -> x < inject_Z hi + (1 # 2) ->
  (lo <= Z.max 1 (round x) <= hi)%Z.
Proof.
  intros Hlo Hx0 Hx1. pose proof (round_lower lo x Hx0).
  pose proof (round_upper_half hi x Hx1). lia.
Qed.



Lemma adjusted_ratio_above_1 (avg_whitespace avg_aesthetic_score
    avg_fractal_dimension avg_entropy : Q) :
  0 <= avg_whitespace ->
  let g0 := if Qge_bool avg_aesthetic_score 8 then GOLDEN_RATIO + 0.07
            else if Qle_bool avg_aesthetic_score 4 then GOLDEN_RATIO - 0.07
            else GOLDEN_RATIO in
  let g1 := g0 + avg_whitespace * 0.03 in
  1 <= (if Qgt_bool avg_fractal_dimension 1.7 || Qgt_bool avg_entropy 6.5
        then g1 * 0.98
        else if Qlt_bool avg_fractal_dimension 1.3 || Qlt_bool avg_entropy 3.0
        then g1 * 1.02
        else g1).
Proof.
  intros Hw. cbv zeta. unfold GOLDEN_RATIO.
  destruct (Qge_bool avg_aesthetic_score 8);
    [| destruct (Qle_bool avg_aesthetic_score 4)];
    (destruct (_ || _); [| destruct (_ || _)]); Lqa.lra.
Qed.

Lemma power_step (base g : Q) (k : Z) :
  0 <= base -> 1 <= g -> (0 <= k)%Z -> base * g ^ k <= base * g ^ (k + 1).
Proof.
  intros Hbase Hg Hk.
  assert (Hnz : ~ g == 0) by (intros Hz; Lqa.lra).
  rewrite (Qpower_plus g k 1 Hnz). change (g ^ 1) with g.
  assert (Hpow : 0 <= g ^ k) by (apply Qpower_0_le; Lqa.lra).
  assert (Hprod : 0 <= base * g ^ k * (g - 1)).
  { apply Qmult_le_0_compat; [now apply Qmult_le_0_compat | Lqa.lra]. }
  set (p := g ^ k) in *. Lqa.lra.
Qed.

Lemma at_least_1_mono (x y : Q) :
  x <= y -> (Z.max 1 (round x) <= Z.max 1 (round y))%Z.
Proof. intros H. apply round_mono in H. lia. Qed.

(** X16.  For a non-negative base size and whitespace, the sizes of the
    golden-ratio scale never decrease from [small] through [body] and
    the headings [h6] to [h1] up to [display]. *)
Theorem font_scale_increasing (fpow : Q -> Q -> Q)
    (base_size avg_whitespace avg_aesthetic_score avg_fractal_dimension
     avg_entropy : Q) :
  0 <= base_size -> 0 <= avg_whitespace ->
  let s := calculate_golden_ratio_font_scale fpow base_size avg_whitespace
             avg_aesthetic_score avg_fractal_dimension avg_entropy in
  (scale_small s <= scale_body s)%Z /\ (scale_body s <= scale_h6 s)%Z
  /\ (scale_h6 s <= scale_h5 s)%Z /\ (scale_h5 s <= scale_h4 s)%Z
  /\ (scale_h4 s <= scale_h3 s)%Z /\ (scale_h3 s <= scale_h2 s)%Z
  /\ (scale_h2 s <= scale_h1 s)%Z /\ (scale_h1 s <= scale_display s)%Z.
Proof.
  intros Hbase Hw. cbv zeta. unfold calculate_golden_ratio_font_scale.
  cbv zeta.
  pose proof (adjusted_ratio_above_1 avg_whitespace avg_aesthetic_score
                avg_fractal_dimension avg_entropy Hw) as Hg.
  cbv zeta in Hg.
  match type of Hg with 1 <= ?ratio => set (g := ratio) in * end.
  cbn [scale_small scale_body scale_h6 scale_h5 scale_h4 scale_h3 scale_h2
       scale_h1 scale_display].
  pose proof (power_step base_size g 1 Hbase Hg) as H1.
  pose proof (power_step base_size g 2 Hbase Hg) as H2.
  pose proof (power_step base_size g 3 Hbase Hg) as H3.
  pose proof (power_step base_size g 4 Hbase Hg) as H4.
  pose proof (power_step base_size g 5 Hbase Hg) as H5.
  pose proof (power_step base_size g 6 Hbase Hg) as H6.
  change (g ^ 1) with g in H1.
  repeat split; apply at_least_1_mono.
  - apply Qle_shift_div_r; [Lqa.lra | Lqa.nra].
  - Lqa.nra.
  - apply H1. lia.
  - apply H2. lia.
  - apply H3. lia.
  - apply H4. lia.
  - apply H5. lia.
  - apply H6. lia.
Qed.

Lemma font_scale_increasing_witness :
  let s := calculate_golden_ratio_font_scale Samples.square_pow 16 0.5 5 1.5 4.0 in
  (scale_small s <= scale_body s)%Z /\ (scale_body s <= scale_h6 s)%Z
  /\ (scale_h6 s <= scale_h5 s)%Z /\ (scale_h5 s <= scale_h4 s)%Z
  /\ (scale_h4 s <= scale_h3 s)%Z /\ (scale_h3 s <= scale_h2 s)%Z
  /\ (scale_h2 s <= scale_h1 s)%Z /\ (scale_h1 s <= scale_display s)%Z.
Proof. apply font_scale_increasing; discriminate. Defined.

End FontScaleFacts.

(** ** The search through the catalogue *)
Module FontSearchFacts.
Import Py Aggregation ColorsysFacts FontSuggester.
Local Open Scope Q_scope.

Section Search.
#[local] Opaque current_matches.
Variable f : Aggregation.t.
Variables moods styles : gset string.
Variables heading_given body_given : option string.

Local Notation "'matches' p" :=
  (current_matches f moods styles heading_given body_given p)
  (at level 10, p at level 9).

(** A turn of the loop that returns either takes the entry, whose score
    is above the best so far, or keeps the state, the score being below
    it (at most equal to it while nothing is chosen yet). *)
Lemma consider_returns (state state' : option (string * string) * Q) (p : pairing) :
  consider f moods styles heading_given body_given state p = Ok state' ->
  (snd state < matches p /\ state' = (Some (heading p, body p), Qred (matches p)))
  \/ (state' = state /\ matches p <= snd state
      /\ (fst state <> None -> matches p < snd state)).
Proof.
  destruct state as [best max_matches]. unfold consider. cbv zeta.
  unfold Qgt_bool.
  destruct (Qlt_bool max_matches (Qred (matches p))) eqn:Hgt.
  - intros [= <-]. left. apply Qlt_bool_iff in Hgt.
    rewrite Qred_correct in Hgt. split; [exact Hgt | reflexivity].
  - apply Qlt_bool_false in Hgt. rewrite Qred_correct in Hgt.
    destruct best as [best |].
    + destruct (Qeq_bool (Qred (matches p)) max_matches) eqn:Heq.
      * cbn. discriminate.
      * intros [= <-]. right. split; [reflexivity |]. split; [exact Hgt |].
        intros _. apply Qeq_bool_neq in Heq. rewrite Qred_correct in Heq.
        apply Qle_lteq in Hgt as [Hlt | Heq']; [exact Hlt | contradiction].
    + intros [= <-]. right. split; [reflexivity |]. split; [exact Hgt |].
      cbn. congruence.
Qed.

Lemma best_match_trace (catalog : list pairing) :
  forall state final : option (string * string) * Q,
    best_match f moods styles heading_given body_given catalog state = Ok final ->
    (final = state
     /\ Forall (fun q => matches q <= snd state
                         /\ (fst state <> None -> matches q < snd state)) catalog)
    \/ (exists before p after,
          catalog = (before ++ p :: after)%list
          /\ final = (Some (heading p, body p), Qred (matches p))
          /\ snd state < matches p
          /\ Forall (fun q => matches q < matches p) before
          /\ Forall (fun q => matches q < matches p) after).
Proof.
  induction catalog as [| p rest IH]; intros state final; cbn [best_match].
  - intros [= <-]. left. split; [reflexivity | constructor].
  - destruct (consider f moods styles heading_given body_given state p)
      as [state1 | e] eqn:Hturn; cbn [bind]; [| discriminate].
    intros Hrest. apply consider_returns in Hturn.
    destruct Hturn as [[Hlt ->] | (-> & Hle & Hstrict)];
      apply IH in Hrest;
      destruct Hrest as [[-> Hall] | (before & p' & after & -> & -> & Hlt' & Hb & Ha)].
    + right. exists [], p, rest. cbn [fst snd] in Hall.
      repeat split; try assumption; [constructor |].
      eapply List.Forall_impl; [| exact Hall]. cbn beta.
      intros q [_ Hq]. rewrite Qred_correct in Hq. apply Hq. discriminate.
    + right. exists (p :: before), p', after. cbn [snd] in Hlt'.
      rewrite Qred_correct in Hlt'.
      repeat split; try assumption; [Lqa.lra |].
      constructor; assumption.
    + left. split; [reflexivity |]. constructor; [| exact Hall].
      split; assumption.
    + right. exists (p :: before), p', after.
      repeat split; try assumption.
      constructor; [Lqa.lra | assumption].
Qed.

End Search.



(** X18.  A brand font given without its partner is not used: whenever
    [suggest_fonts] returns for guidelines that name only a heading
    font, the heading font returned is the default "Roboto", and for
    guidelines that name only a body font the body font returned is the
    default "Open Sans". *)
Theorem lone_brand_font_dropped (fpow : Q -> Q -> Q)
    (image_analysis_results : list Analysis.t)
    (brand_guidelines : BrandGuidelines.t) (r : suggestion) :
  given (BrandGuidelines.headingFont brand_guidelines)
  && given (BrandGuidelines.bodyFont brand_guidelines) = false ->
  suggest_fonts fpow image_analysis_results brand_guidelines = Ok r ->
  (given (BrandGuidelines.headingFont brand_guidelines) = true ->
   heading_font r = "Roboto")
  /\ (given (BrandGuidelines.bodyFont brand_guidelines) = true ->
      body_font r = "Open Sans").
Proof.
  intros Hgiven. unfold suggest_fonts. rewrite Hgiven.
  destruct (best_match _ _ _ _ _ _ _) as [final | e]; cbn [bind]; [| discriminate].
  intros [= <-]. cbn [heading_font body_font].
  split; intros ->; destruct (fst final); reflexivity.
Qed.

Lemma lone_brand_font_dropped_witness :
  exists r,
    suggest_fonts Samples.square_pow [] Examples.georgia_only = Ok r
    /\ (given (BrandGuidelines.headingFont Examples.georgia_only) = true ->
        heading_font r = "Roboto")
    /\ (given (BrandGuidelines.bodyFont Examples.georgia_only) = true ->
        body_font r = "Open Sans").
Proof.
  destruct (suggest_fonts Samples.square_pow [] Examples.georgia_only)
    as [r | e] eqn:Hr; [| vm_compute in Hr; discriminate].
  exists r. split; [reflexivity |].
  now apply (lone_brand_font_dropped Samples.square_pow [] Examples.georgia_only r).
Defined.

End FontSearchFacts.

(** ** The brand-guideline parser *)
Module ParserMoreFacts.
Import Py BrandGuidelineParser Wellformed.

Lemma checked_color_ok (warning : string -> diagnostic)
    (guidelines : gmap string json) (key : string) :
  color_ok (fst (checked valid_color warning guidelines key)).
Proof.
  unfold checked, color_ok. destruct (guidelines !! key) as [v |]; [| discriminate].
  destruct (valid_color v) as [c |] eqn:Hvalid; [| discriminate].
  cbn. intros s [= <-]. destruct v; try discriminate. cbn in Hvalid.
  destruct (startswith "#" s) eqn:Hprefix; [| discriminate].
  destruct ((String.length s =? 7)%nat) eqn:H7.
  - injection Hvalid as <-. apply Nat.eqb_eq in H7. auto.
  - destruct ((String.length s =? 4)%nat) eqn:H4; [| discriminate].
    injection Hvalid as <-. apply Nat.eqb_eq in H4. auto.
Qed.

Lemma checked_font_ok (warning : string -> diagnostic)
    (guidelines : gmap string json) (key : string) :
  font_ok (fst (checked valid_font warning guidelines key)).
Proof.
  unfold checked, font_ok. destruct (guidelines !! key) as [v |]; [| discriminate].
  destruct (valid_font v) as [c |] eqn:Hvalid; [| discriminate].
  cbn. intros s [= <-]. destruct v; try discriminate. cbn in Hvalid.
  destruct s; [discriminate |]. injection Hvalid as <-. discriminate.
Qed.

Lemma checked_layout_ok (warning : string -> diagnostic)
    (guidelines : gmap string json) (key : string) :
  layout_ok (fst (checked valid_layout warning guidelines key)).
Proof.
  unfold checked, layout_ok. destruct (guidelines !! key) as [v |]; [| discriminate].
  destruct (valid_layout v) as [c |] eqn:Hvalid; [| discriminate].
  cbn [fst]. intros c' [= <-]. destruct v as [| | | str | |]; try discriminate.
  unfold valid_layout in Hvalid.
  destruct (existsb (String.eqb str) layout_preferences) eqn:Hin; [| discriminate].
  injection Hvalid as <-. apply existsb_exists in Hin as (x & Hx & Heq).
  apply String.eqb_eq in Heq. now subst.
Qed.

Lemma empty_ok : guidelines_ok BrandGuidelines.empty.
Proof.
  unfold guidelines_ok, color_ok, font_ok, layout_ok.
  repeat split; intros; discriminate.
Qed.

(** X19.  Whatever is found at the path, the guidelines the parser
    returns are well formed: every colour kept starts with [#] and has
    four or seven characters, every font kept is a non-empty string, and
    a layout preference kept is one of "minimalist", "bold", "classic"
    and "modern". *)
Theorem parse_result_wellformed (at_path : file) :
  guidelines_ok (fst (parse_brand_guidelines at_path)).
Proof.
  destruct at_path as [| | [| | | s | items | members]]; cbn [parse_brand_guidelines];
    try apply empty_ok.
  - destruct (existsb _ keys_checked); apply empty_ok.
  - destruct (existsb _ keys_checked); apply empty_ok.
  - unfold validate. cbv zeta. cbn [fst]. unfold guidelines_ok.
    cbn [BrandGuidelines.primaryColor BrandGuidelines.secondaryColor
         BrandGuidelines.accentColor BrandGuidelines.headingFont
         BrandGuidelines.bodyFont BrandGuidelines.layoutPreference].
    split; [apply checked_color_ok |]. split; [apply checked_color_ok |].
    split; [apply checked_color_ok |]. split; [apply checked_font_ok |].
    split; [apply checked_font_ok | apply checked_layout_ok].
Qed.

Lemma checked_insert (valid : json -> option string)
    (warning : string -> diagnostic) (guidelines : gmap string json)
    (key unknown : string) (v : json) :
  unknown <> key ->
  checked valid warning (<[unknown := v]> guidelines) key
  = checked valid warning guidelines key.
Proof.
  intros Hne. unfold checked. now rewrite lookup_insert_ne.
Qed.

(** X20.  A key the parser does not know changes nothing: adding it to
    the JSON object, whatever its value, leaves both the guidelines
    returned and the lines printed as they were, so no warning is given
    for it. *)
Theorem unknown_key_ignored (guidelines : gmap string json)
    (unknown : string) (v : json) :
  ~ In unknown keys_checked ->
  parse_brand_guidelines (Content (JObject (<[unknown := v]> guidelines)))
  = parse_brand_guidelines (Content (JObject guidelines)).
Proof.
  intros Hunknown. cbn [parse_brand_guidelines]. unfold validate. cbv zeta.
  assert (Hne : forall key, In key keys_checked -> unknown <> key).
  { intros key Hkey ->. contradiction. }
  rewrite !checked_insert by (apply Hne; cbn; tauto).
  reflexivity.
Qed.

Lemma unknown_key_ignored_witness :
  parse_brand_guidelines
    (Content (JObject (<["invalidKey" := JNumber 123]>
                         (<["headingFont" := JString "Roboto"]> ∅))))
  = parse_brand_guidelines
      (Content (JObject (<["headingFont" := JString "Roboto"]> ∅))).
Proof.
  apply unknown_key_ignored. cbn. intros H.
  repeat (destruct H as [H | H]; [discriminate H |]). exact H.
Defined.

End ParserMoreFacts.

(** ** The decisions of [generate_layout] *)
Module LayoutFacts.
Import Py Aggregation ColorsysFacts RoundFacts LayoutGenerator.
Local Open Scope Q_scope.

Lemma infer_layout_preference_cases (f : Aggregation.t) :
  infer_layout_preference f = "minimalist" \/ infer_layout_preference f = "bold"
  \/ infer_layout_preference f = "modern" \/ infer_layout_preference f = "classic".
Proof.
  unfold infer_layout_preference.
  destruct (_ || _); [tauto |]. destruct (_ || _); [tauto |].
  destruct (_ || _); tauto.
Qed.

(** X21.  Without brand guidelines the [layout_style] argument of
    [generate_layout] has no effect: the inferred layout preference
    always overrides it, so the style used is "minimal", "dense" or
    "creative" and is the same for any two arguments. *)
Theorem layout_style_overridden (image_analysis_results : list Analysis.t)
    (brand_guidelines : BrandGuidelines.t) (style1 style2 : string) :
  BrandGuidelines.is_empty brand_guidelines = true ->
  layout_style_used (generate_layout image_analysis_results brand_guidelines style1)
  = layout_style_used (generate_layout image_analysis_results brand_guidelines style2)
  /\ In (layout_style_used
           (generate_layout image_analysis_results brand_guidelines style1))
        ["minimal"; "dense"; "creative"].
Proof.
  intros Hempty. unfold generate_layout. cbv zeta. cbn [layout_style_used].
  unfold active_brand_guidelines. rewrite Hempty.
  unfold overridden_layout_style. cbn [BrandGuidelines.layoutPreference].
  destruct (infer_layout_preference_cases (aggregate image_analysis_results))
    as [-> | [-> | [-> | ->]]]; cbn; tauto.
Qed.

Lemma layout_style_overridden_witness :
  layout_style_used (generate_layout [Examples.analysed] BrandGuidelines.empty "dense")
  = layout_style_used (generate_layout [Examples.analysed] BrandGuidelines.empty "creative")
  /\ In (layout_style_used
           (generate_layout [Examples.analysed] BrandGuidelines.empty "dense"))
        ["minimal"; "dense"; "creative"].
Proof. apply layout_style_overridden. reflexivity. Defined.

Lemma base_spacing_unit_nonneg (f : Aggregation.t) :
  0 <= avg_whitespace f -> 0 <= avg_visual_balance f ->
  0 <= avg_aesthetic_score f -> 0 <= base_spacing_unit f.
Proof.
  intros Hw Hb Ha. unfold base_spacing_unit. cbv zeta.
  assert (Hdiv : avg_aesthetic_score f / 10 * 10 == avg_aesthetic_score f)
    by (field; discriminate).
  destruct (_ || _); [| destruct (_ || _)]; rewrite Hdiv; Lqa.lra.
Qed.

Lemma golden_spacing_ordered (base : Q) :
  0 <= base ->
  let s := golden_spacing base in
  (golden_spacing_xs s <= golden_spacing_sm s)%Z
  /\ (golden_spacing_sm s <= golden_spacing_md s)%Z
  /\ (golden_spacing_md s <= golden_spacing_lg s)%Z
  /\ (golden_spacing_lg s <= golden_spacing_xl s)%Z
  /\ (golden_spacing_xl s <= golden_spacing_2xl s)%Z.
Proof.
  intros Hbase. cbv zeta. unfold golden_spacing.
  cbn [golden_spacing_xs golden_spacing_sm golden_spacing_md golden_spacing_lg
       golden_spacing_xl golden_spacing_2xl].
  change (GOLDEN_RATIO ^ 2) with (GOLDEN_RATIO * GOLDEN_RATIO).
  change (GOLDEN_RATIO ^ 3) with (GOLDEN_RATIO * GOLDEN_RATIO * GOLDEN_RATIO).
  assert (Hg : 1 <= GOLDEN_RATIO) by discriminate.
  set (g := GOLDEN_RATIO) in *.
  assert (Hbg : 0 <= base * (g - 1)).
  { apply Qmult_le_0_compat; Lqa.lra. }
  assert (Hbgg : 0 <= base * g * (g - 1)).
  { apply Qmult_le_0_compat; [apply Qmult_le_0_compat |]; Lqa.lra. }
  assert (Hbggg : 0 <= base * g * g * (g - 1)).
  { apply Qmult_le_0_compat; [repeat apply Qmult_le_0_compat |]; Lqa.lra. }
  assert (Hsm : 0 <= base / g /\ base / g <= base).
  { split.
    - apply Qle_shift_div_l; Lqa.lra.
    - apply Qle_shift_div_r; Lqa.lra. }
  assert (Hgg : 0 < g * g).
  { apply Qlt_le_trans with (1 * 1); [reflexivity |].
    apply Qmult_le_compat_nonneg; split; Lqa.lra. }
  repeat split; apply round_mono.
  - apply Qle_shift_div_r; [exact Hgg |].
    assert (Heq : base / g * (g * g) == base * g) by (field; Lqa.lra).
    rewrite Heq. Lqa.lra.
  - apply Hsm.
  - Lqa.lra.
  - Lqa.lra.
  - Lqa.lra.
Qed.

(** X22.  With non-negative aggregated whitespace, visual balance and
    aesthetic score, the spacing scale [generate_layout] works with never
    decreases from [xs] through [sm], [md], [lg] and [xl] to [2xl]. *)
Theorem spacing_scale_increasing (image_analysis_results : list Analysis.t)
    (brand_guidelines : BrandGuidelines.t) (layout_style : string) :
  let f := aggregate image_analysis_results in
  0 <= avg_whitespace f -> 0 <= avg_visual_balance f ->
  0 <= avg_aesthetic_score f ->
  let s := spacing_used (generate_layout image_analysis_results
                           brand_guidelines layout_style) in
  (golden_spacing_xs s <= golden_spacing_sm s)%Z
  /\ (golden_spacing_sm s <= golden_spacing_md s)%Z
  /\ (golden_spacing_md s <= golden_spacing_lg s)%Z
  /\ (golden_spacing_lg s <= golden_spacing_xl s)%Z
  /\ (golden_spacing_xl s <= golden_spacing_2xl s)%Z.
Proof.
  cbv zeta. intros Hw Hb Ha. unfold generate_layout. cbv zeta.
  cbn [spacing_used]. apply golden_spacing_ordered.
  now apply base_spacing_unit_nonneg.
Qed.

Lemma spacing_scale_increasing_witness :
  let s := spacing_used (generate_layout [Examples.analysed]
                           BrandGuidelines.empty "minimal") in
  (golden_spacing_xs s <= golden_spacing_sm s)%Z
  /\ (golden_spacing_sm s <= golden_spacing_md s)%Z
  /\ (golden_spacing_md s <= golden_spacing_lg s)%Z
  /\ (golden_spacing_lg s <= golden_spacing_xl s)%Z
  /\ (golden_spacing_xl s <= golden_spacing_2xl s)%Z.
Proof.
  apply (spacing_scale_increasing [Examples.analysed] BrandGuidelines.empty "minimal");
    vm_compute; discriminate.
Defined.

End LayoutFacts.
